(** * matrixMulCUBLAS: a shallow embedding of the benchmark and its helpers

    Source: src/matrixMulCUBLAS/matrixMulCUBLAS.cpp.
    Device memory and host memory are modelled as maps from element
    offsets ([Z]) to values; 32-bit unsigned arithmetic is written out with
    [u32]. *)

From Stdlib Require Import ZArith Lia List Bool String QArith Qround Qabs Qpower Lqa.
Import ListNotations.
Open Scope Z_scope.

(** ** Machine integers *)

(** [unsigned int] arithmetic: results are taken modulo 2^32. *)
Definition u32 (z : Z) : Z := z mod 2 ^ 32.

(** Conversion of an [unsigned int] argument to an [int] parameter
    (two's complement, as done by the compilers the sample targets). *)
Definition to_int32 (z : Z) : Z := if z <? 2 ^ 31 then z else z - 2 ^ 32.

(** A pointer-indexed buffer and a single store into it. *)
Definition upd {A : Type} (m : Z -> A) (p : Z) (v : A) : Z -> A :=
  fun q => if Z.eqb q p then v else m q.

(** ** matrixMulCPU (lines 170-187)

    The element types are kept abstract: [F] is [float], [D] is [double],
    [to_double] the promotion [double a = A[..]], [to_float] the narrowing
    [(float)sum], [dadd]/[dmul] the double operations. *)
Section MatrixMulCPU.
Context {F D : Type} (to_double : F -> D) (to_float : D -> F)
        (d0 : D) (dadd dmul : D -> D -> D).

(** The inner [k] loop after [kk] iterations: [sum += a * b]. *)
Fixpoint cpu_sum (A B : Z -> F) (wA wB i j : Z) (kk : nat) : D :=
  match kk with
  | O => d0
  | S kk' =>
      let k := Z.of_nat kk' in
      let a := to_double (A (u32 (i * wA + k))) in
      let b := to_double (B (u32 (k * wB + j))) in
      dadd (cpu_sum A B wA wB i j kk') (dmul a b)
  end.

(** The [j] loop of row [i] after [jj] iterations. *)
Fixpoint cpu_jloop (C A B : Z -> F) (wA wB i : Z) (jj : nat) : Z -> F :=
  match jj with
  | O => C
  | S jj' =>
      let j := Z.of_nat jj' in
      upd (cpu_jloop C A B wA wB i jj') (u32 (i * wB + j))
          (to_float (cpu_sum A B wA wB i j (Z.to_nat wA)))
  end.

(** The [i] loop after [ii] iterations. *)
Fixpoint cpu_iloop (C A B : Z -> F) (wA wB : Z) (ii : nat) : Z -> F :=
  match ii with
  | O => C
  | S ii' =>
      cpu_jloop (cpu_iloop C A B wA wB ii') A B wA wB (Z.of_nat ii')
                (Z.to_nat wB)
  end.

(** [matrixMulCPU(C, A, B, hA, wA, wB)]: the final contents of [C]. *)
Definition matrixMulCPU (C A B : Z -> F) (hA wA wB : Z) : Z -> F :=
  cpu_iloop C A B wA wB (Z.to_nat hA).

(** The value the spec assigns to output position (i,j): the double
    accumulation of [k = 0 .. wA-1], narrowed once (spec-side reading,
    mathematical indices). *)
Fixpoint dsum (n : nat) (f : Z -> D) : D :=
  match n with
  | O => d0
  | S n' => dadd (dsum n' f) (f (Z.of_nat n'))
  end.

Definition rowmajor_entry (A B : Z -> F) (wA wB i j : Z) : F :=
  to_float (dsum (Z.to_nat wA)
              (fun k => dmul (to_double (A (i * wA + k)))
                             (to_double (B (k * wB + j))))).
End MatrixMulCPU.

(** ** The matrix dimensions (lines 74-77) *)
Record sMatrixSize := mkMatrixSize {
  uiWA : Z; uiHA : Z; uiWB : Z; uiHB : Z; uiWC : Z; uiHC : Z }.

(** Every field is an [unsigned int]. *)
Definition size_in_range (ms : sMatrixSize) : Prop :=
  (forall x, In x [uiWA ms; uiHA ms; uiWB ms; uiHB ms; uiWC ms; uiHC ms] ->
             0 <= x < 2 ^ 32).

(** A valid MatrixDescriptor: multipliability and output shape. *)
Definition valid_size (ms : sMatrixSize) : Prop :=
  size_in_range ms /\ uiWA ms = uiHB ms /\ uiHC ms = uiHA ms /\
  uiWC ms = uiWB ms.

(** ** cublasSgemm, column-major general matrix multiply

    The library routine as documented (BLAS semantics): with [op(X)] the
    operand or its transpose, [C := alpha * op(A) * op(B) + beta * C] on
    the [m x n] column-major block of [C] with leading dimension [ldc];
    [C] is not read when [beta] is zero.  Arguments violating the BLAS
    argument checks give [CUBLAS_STATUS_INVALID_VALUE] and leave [C]
    untouched.  The scalar type is abstract. *)
Inductive cublasOperation := CUBLAS_OP_N | CUBLAS_OP_T.
Inductive cublasStatus := CUBLAS_STATUS_SUCCESS | CUBLAS_STATUS_INVALID_VALUE.

Section Sgemm.
Context {R : Type} (r0 : R) (radd rmul : R -> R -> R) (is_zero : R -> bool).

(** Element (r, c) of [op(X)], [X] column-major with leading dimension [ld]. *)
Definition op_elem (t : cublasOperation) (X : Z -> R) (ld r c : Z) : R :=
  match t with
  | CUBLAS_OP_N => X (r + c * ld)
  | CUBLAS_OP_T => X (c + r * ld)
  end.

Definition cublasSgemm (transa transb : cublasOperation) (m n k : Z)
    (alpha : R) (A : Z -> R) (lda : Z) (B : Z -> R) (ldb : Z)
    (beta : R) (C : Z -> R) (ldc : Z) : cublasStatus * (Z -> R) :=
  let nrowa := match transa with CUBLAS_OP_N => m | CUBLAS_OP_T => k end in
  let nrowb := match transb with CUBLAS_OP_N => k | CUBLAS_OP_T => n end in
  if (m <? 0) || (n <? 0) || (k <? 0) || (lda <? Z.max 1 nrowa)
     || (ldb <? Z.max 1 nrowb) || (ldc <? Z.max 1 m)
  then (CUBLAS_STATUS_INVALID_VALUE, C)
  else (CUBLAS_STATUS_SUCCESS,
        fun p =>
          let i := p mod ldc in
          let j := p / ldc in
          if (0 <=? p) && (i <? m) && (j <? n) then
            let s := dsum r0 radd (Z.to_nat k)
                       (fun l => rmul (op_elem transa A lda i l)
                                      (op_elem transb B ldb l j)) in
            if is_zero beta then rmul alpha s
            else radd (rmul alpha s) (rmul beta (C p))
          else C p).

(** The invocation of lines 288-295 and 330-337: [m = uiWB], [n = uiHA],
    [k = uiWA], left operand [d_B] (ld [uiWB]), right operand [d_A]
    (ld [uiWA]), output ld [uiWB]; the unsigned fields are passed to the
    [int] parameters of the library. *)
Definition invoke_sgemm (ms : sMatrixSize) (alpha beta : R)
    (d_A d_B d_C : Z -> R) : cublasStatus * (Z -> R) :=
  cublasSgemm CUBLAS_OP_N CUBLAS_OP_N
    (to_int32 (uiWB ms)) (to_int32 (uiHA ms)) (to_int32 (uiWA ms))
    alpha d_B (to_int32 (uiWB ms)) d_A (to_int32 (uiWA ms))
    beta d_C (to_int32 (uiWB ms)).
End Sgemm.

(** ** Power/clock controller: undervolte and resetvolte (lines 80-159)

    The NVML library is a collaborator: each call returns a status and
    acts on the device state.  A backend gives the status and the new
    device state of every call; the functions below follow the source
    line by line, with the early [return]s of the source. *)
Inductive nvmlReturn := NVML_SUCCESS | NVML_ERROR (code : Z).

Definition nvml_ok (r : nvmlReturn) : bool :=
  match r with NVML_SUCCESS => true | NVML_ERROR _ => false end.

(** The state the power/clock regime lives in (on the device). *)
Record gpu_state := mkGpu {
  power_limit : Z;                  (* milliwatts *)
  app_clocks : option (Z * Z);      (* locked (memory, graphics) MHz *)
  auto_boost : bool }.

(** An [nvmlDevice_t] is modelled by the index it was resolved from. *)
Inductive nvml_call :=
| NvmlInit
| NvmlDeviceGetHandleByIndex (index : Z)
| NvmlDeviceSetPowerManagementLimit (device : Z) (limit : Z)
| NvmlDeviceSetApplicationsClocks (device : Z) (memClockMHz graphicsClockMHz : Z)
| NvmlDeviceResetApplicationsClocks (device : Z)
| NvmlDeviceSetAutoBoostedClocksEnabled (device : Z) (enabled : bool).

Definition nvml_backend : Type := nvml_call -> gpu_state -> nvmlReturn * gpu_state.

(** Console output: [cout << s] and [printf(fmt, i, nvmlErrorString(result))]. *)
Inductive console_line :=
| Cout (s : string)
| Printf_device_error (fmt : string) (i : Z) (result : nvmlReturn).

Record world := mkWorld {
  w_gpu : gpu_state;
  w_calls : list nvml_call;        (* every NVML call issued, in order *)
  w_out : list console_line }.

Definition nvml_call_in (b : nvml_backend) (c : nvml_call) (w : world)
    : nvmlReturn * world :=
  let '(r, g) := b c (w_gpu w) in
  (r, mkWorld g (w_calls w ++ [c]) (w_out w)).

Definition print_line (l : console_line) (w : world) : world :=
  mkWorld (w_gpu w) (w_calls w) (w_out w ++ [l]).

Definition undervolte (b : nvml_backend) (w : world) : unit * world :=
  let '(r, w) := nvml_call_in b NvmlInit w in
  if negb (nvml_ok r) then (tt, print_line (Cout "init error") w) else
  let i := 0 in
  let '(result, w) := nvml_call_in b (NvmlDeviceGetHandleByIndex i) w in
  if negb (nvml_ok result) then
    (tt, print_line (Printf_device_error
                       "Failed to get handle for device %i: %s" i result) w) else
  let device := i in
  let '(result, w) :=
    nvml_call_in b (NvmlDeviceSetPowerManagementLimit device 30000) w in
  if negb (nvml_ok result) then
    (tt, print_line (Printf_device_error
                       "Failed to set power limit of device %i: %s" i result) w) else
  let '(result, w) :=
    nvml_call_in b (NvmlDeviceSetApplicationsClocks device 3510 1885) w in
  if negb (nvml_ok result) then
    (tt, print_line (Printf_device_error
                       "Failed to set clock of device %i: %s" i result) w) else
  let '(result, w) :=
    nvml_call_in b (NvmlDeviceSetAutoBoostedClocksEnabled device false) w in
  if negb (nvml_ok result) then
    (tt, print_line (Printf_device_error
                       "Failed to disable autoboost of device %i: %s" i result) w) else
  (tt, w).

Definition resetvolte (b : nvml_backend) (w : world) : unit * world :=
  let '(r, w) := nvml_call_in b NvmlInit w in
  if negb (nvml_ok r) then (tt, print_line (Cout "init error") w) else
  let i := 0 in
  let '(result, w) := nvml_call_in b (NvmlDeviceGetHandleByIndex i) w in
  if negb (nvml_ok result) then
    (tt, print_line (Printf_device_error
                       "Failed to get handle for device %i: %s" i result) w) else
  let device := i in
  let '(result, w) :=
    nvml_call_in b (NvmlDeviceSetPowerManagementLimit device 38500) w in
  if negb (nvml_ok result) then
    (tt, print_line (Printf_device_error
                       "Failed to set power limit of device %i: %s" i result) w) else
  let '(result, w) :=
    nvml_call_in b (NvmlDeviceResetApplicationsClocks device) w in
  if negb (nvml_ok result) then
    (tt, print_line (Printf_device_error
                       "Failed to reset clock of device %i: %s" i result) w) else
  let '(result, w) :=
    nvml_call_in b (NvmlDeviceSetAutoBoostedClocksEnabled device true) w in
  if negb (nvml_ok result) then
    (tt, print_line (Printf_device_error
                       "Failed to disable autoboost of device %i: %s" i result) w) else
  (tt, w).

(** A backend in which every call succeeds with its documented effect. *)
Definition nvml_ideal : nvml_backend := fun c g =>
  (NVML_SUCCESS,
   match c with
   | NvmlDeviceSetPowerManagementLimit _ l =>
       mkGpu l (app_clocks g) (auto_boost g)
   | NvmlDeviceSetApplicationsClocks _ m gr =>
       mkGpu (power_limit g) (Some (m, gr)) (auto_boost g)
   | NvmlDeviceResetApplicationsClocks _ =>
       mkGpu (power_limit g) None (auto_boost g)
   | NvmlDeviceSetAutoBoostedClocksEnabled _ e =>
       mkGpu (power_limit g) (app_clocks g) e
   | _ => g
   end).

(** Spec side (section 4.4): a transition as an ordered list of
    sub-operations, each with the report printed when it fails; the
    first failure stops the transition, nothing is undone. *)
Fixpoint ordered_transition (b : nvml_backend)
    (steps : list (nvml_call * (nvmlReturn -> console_line))) (w : world)
    : world :=
  match steps with
  | [] => w
  | (c, report) :: rest =>
      let '(r, w') := nvml_call_in b c w in
      if nvml_ok r then ordered_transition b rest w' else print_line (report r) w'
  end.

Definition undervolte_steps : list (nvml_call * (nvmlReturn -> console_line)) :=
  [(NvmlInit, fun _ => Cout "init error");
   (NvmlDeviceGetHandleByIndex 0,
    Printf_device_error "Failed to get handle for device %i: %s" 0);
   (NvmlDeviceSetPowerManagementLimit 0 30000,
    Printf_device_error "Failed to set power limit of device %i: %s" 0);
   (NvmlDeviceSetApplicationsClocks 0 3510 1885,
    Printf_device_error "Failed to set clock of device %i: %s" 0);
   (NvmlDeviceSetAutoBoostedClocksEnabled 0 false,
    Printf_device_error "Failed to disable autoboost of device %i: %s" 0)].

Definition resetvolte_steps : list (nvml_call * (nvmlReturn -> console_line)) :=
  [(NvmlInit, fun _ => Cout "init error");
   (NvmlDeviceGetHandleByIndex 0,
    Printf_device_error "Failed to get handle for device %i: %s" 0);
   (NvmlDeviceSetPowerManagementLimit 0 38500,
    Printf_device_error "Failed to set power limit of device %i: %s" 0);
   (NvmlDeviceResetApplicationsClocks 0,
    Printf_device_error "Failed to reset clock of device %i: %s" 0);
   (NvmlDeviceSetAutoBoostedClocksEnabled 0 true,
    Printf_device_error "Failed to disable autoboost of device %i: %s" 0)].

(** ** IEEE 754 binary floating point (round to nearest, ties to even)

    [float] is binary32 and [double] binary64.  A value is a finite
    rational, an infinity or NaN; a finite result of an operation is the
    exact rational result rounded to the format (subnormals included,
    overflow to infinity).  Signed zeros are not distinguished. *)
Inductive fl := Fin (q : Q) | Inf (neg : bool) | NaN.

Record fformat := mkFormat { prec : Z; emin : Z; emax : Z }.
(** [emin] is the exponent of the least subnormal, [emax] the greatest
    exponent of a normal number. *)
Definition binary32 := mkFormat 24 (-149) 127.
Definition binary64 := mkFormat 53 (-1074) 1023.

Definition pow2 (z : Z) : Q := Qpower (2 # 1) z.

Definition Qltb (x y : Q) : bool := negb (Qle_bool y x).

(** floor (log2 x) for a positive rational. *)
Definition flog2 (x : Q) : Z :=
  let d := Z.log2 (Qnum x) - Z.log2 (Zpos (Qden x)) in
  if Qle_bool (pow2 d) x then d else d - 1.

(** Rounding to the nearest integer, ties to even. *)
Definition rne (x : Q) : Z :=
  let f := Qfloor x in
  match Qcompare (x - inject_Z f) (1 # 2) with
  | Lt => f
  | Gt => f + 1
  | Eq => if Z.even f then f else f + 1
  end.

Definition round (f : fformat) (x : Q) : fl :=
  if Qeq_bool x 0 then Fin 0 else
  let a := Qabs x in
  let e := Z.max (emin f) (flog2 a - (prec f - 1)) in
  let v := Qred (inject_Z (rne (a * pow2 (- e))) * pow2 e) in
  if Qle_bool (pow2 (emax f + 1)) v then Inf (Qltb x 0)
  else Fin (if Qltb x 0 then Qred (- v) else v).

(** Square root of a positive rational, rounded: with [y = x / 4^e],
    [sqrt x / 2^e = sqrt y], and [Z.sqrt (floor y)] is [floor (sqrt y)]. *)
Definition round_sqrt (f : fformat) (x : Q) : fl :=
  let e := Z.max (emin f) (Z.div (flog2 x) 2 - (prec f - 1)) in
  let y := (x * pow2 (-2 * e))%Q in
  let s := Z.sqrt (Qfloor y) in
  let h := (inject_Z s + (1 # 2))%Q in
  let m := match Qcompare y (h * h) with
           | Lt => s
           | Gt => s + 1
           | Eq => if Z.even s then s else s + 1
           end in
  Fin (Qred (inject_Z m * pow2 e)).

Definition fneg (x : fl) : fl :=
  match x with Fin p => Fin (Qred (- p)) | Inf s => Inf (negb s) | NaN => NaN end.

Definition fabs (x : fl) : fl :=
  match x with Fin p => Fin (Qabs p) | Inf _ => Inf false | NaN => NaN end.

Definition fadd (f : fformat) (x y : fl) : fl :=
  match x, y with
  | Fin p, Fin q => round f (p + q)
  | Inf a, Inf b => if Bool.eqb a b then Inf a else NaN
  | Inf a, Fin _ => Inf a
  | Fin _, Inf b => Inf b
  | _, _ => NaN
  end.

Definition fsub (f : fformat) (x y : fl) : fl := fadd f x (fneg y).

Definition fmul (f : fformat) (x y : fl) : fl :=
  match x, y with
  | Fin p, Fin q => round f (p * q)
  | Inf a, Inf b => Inf (xorb a b)
  | Inf a, Fin q | Fin q, Inf a =>
      if Qeq_bool q 0 then NaN else Inf (xorb a (Qltb q 0))
  | _, _ => NaN
  end.

Definition fdiv (f : fformat) (x y : fl) : fl :=
  match x, y with
  | Fin p, Fin q =>
      if Qeq_bool q 0 then (if Qeq_bool p 0 then NaN else Inf (Qltb p 0))
      else round f (p / q)
  | Fin _, Inf _ => Fin 0
  | Inf a, Fin q => Inf (xorb a (Qltb q 0))
  | _, _ => NaN
  end.

Definition fsqrt (f : fformat) (x : fl) : fl :=
  match x with
  | Fin p => if Qltb p 0 then NaN else if Qeq_bool p 0 then Fin 0
             else round_sqrt f p
  | Inf false => Inf false
  | Inf true => NaN
  | NaN => NaN
  end.

(** [x < y]; every comparison with NaN is false. *)
Definition flt (x y : fl) : bool :=
  match x, y with
  | Fin p, Fin q => Qltb p q
  | Inf a, Inf b => a && negb b
  | Inf a, Fin _ => a
  | Fin _, Inf b => negb b
  | _, _ => false
  end.

(** [x <= y]; false when either is NaN. *)
Definition fle (x y : fl) : bool :=
  match x, y with
  | Fin p, Fin q => Qle_bool p q
  | Inf a, Inf b => a || negb b
  | Inf a, Fin _ => a
  | Fin _, Inf b => negb b
  | _, _ => false
  end.

(** Conversions: an [int] to a format; [double] to [float].  The promotion
    [float] to [double] is exact and is the identity on [fl]. *)
Definition of_int (f : fformat) (z : Z) : fl := round f (inject_Z z).

Definition double_to_float (x : fl) : fl :=
  match x with Fin p => round binary32 p | _ => x end.

(** Decimal literals: [1e-7] is a [double], [1.0e-10f] a [float]. *)
Definition lit_double (q : Q) : fl := round binary64 q.
Definition lit_float (q : Q) : fl := round binary32 q.

(** ** sdkCompareL2fe (helper_image.h of the CUDA Samples, called at line 357)

    The comparator is not part of this repository's sources; it is the
    CUDA Samples' helper, transcribed here:
<<
  assert(epsilon >= 0);
  float error = 0; float ref = 0;
  for (unsigned int i = 0; i < len; ++i) {
    float diff = reference[i] - data[i];
    error += diff * diff;
    ref += reference[i] * reference[i];
  }
  float normRef = sqrtf(ref);
  if (fabs(ref) < 1e-7) { return false; }
  float normError = sqrtf(error);
  error = normError / normRef;
  bool result = error < epsilon;
  return result;
>>
    (the debug-only prints are omitted).  [sdkCompareL2fe_result] is what
    the function returns once its assert has passed. *)
Fixpoint l2_loop (reference data : Z -> fl) (i : Z) (fuel : nat)
    (error ref : fl) : fl * fl :=
  match fuel with
  | O => (error, ref)
  | S k =>
      let diff := fsub binary32 (reference i) (data i) in
      l2_loop reference data (i + 1) k
        (fadd binary32 error (fmul binary32 diff diff))
        (fadd binary32 ref (fmul binary32 (reference i) (reference i)))
  end.

Definition sdkCompareL2fe_result (reference data : Z -> fl) (len : Z)
    (epsilon : fl) : bool :=
  let '(error, ref) := l2_loop reference data 0 (Z.to_nat len) (Fin 0) (Fin 0) in
  let normRef := fsqrt binary32 ref in
  if flt (fabs ref) (lit_double (1 # 10000000)) then false
  else
    let normError := fsqrt binary32 error in
    flt (fdiv binary32 normError normRef) epsilon.

(** The helper itself: [assert(epsilon >= 0)] (the [int] 0 converted to
    [float]; asserts are active, [NDEBUG] is not defined) comes first and,
    when it fails, aborts the process: [None]. *)
Definition sdkCompareL2fe (reference data : Z -> fl) (len : Z) (epsilon : fl)
    : option bool :=
  if fle (Fin 0) epsilon
  then Some (sdkCompareL2fe_result reference data len epsilon)
  else None.

(** ** randomInit (lines 190-194)

    [rand] is the generator's output stream: the [k]-th call returns
    [rand k]; [calls] counts the calls made so far.  [rand() / (float)RAND_MAX]
    converts the [int] to [float] and divides in [float]. *)
Definition RAND_MAX : Z := 2147483647.

Fixpoint randomInit_loop (rand : nat -> Z) (calls : nat) (data : Z -> fl)
    (i : Z) (fuel : nat) : (Z -> fl) * nat :=
  match fuel with
  | O => (data, calls)
  | S k =>
      randomInit_loop rand (S calls)
        (upd data i (fdiv binary32 (of_int binary32 (rand calls))
                                   (of_int binary32 RAND_MAX)))
        (i + 1) k
  end.

Definition randomInit (rand : nat -> Z) (calls : nat) (data : Z -> fl)
    (size : Z) : (Z -> fl) * nat :=
  randomInit_loop rand calls data 0 (Z.to_nat size).

(** ** matrixMultiply (lines 234-423)

    The host program is modelled as a state and exit monad.  What the
    program cannot decide itself comes from an environment: whether each
    call wrapped in [checkCudaErrors] succeeds, the result the device
    writes for each [cublasSgemm] call (a function of the call's index and
    of the device operands, so that faulty results under a power regime
    are allowed), each elapsed time, the [rand()] stream after
    [srand(2006)], and the contents of fresh allocations.  A failing
    checked call makes [checkCudaErrors] terminate the process
    ([exit(EXIT_FAILURE)]).  The state keeps the set of live resources:
    [malloc], [cudaMalloc], [cudaEventCreate] and [cublasCreate] acquire
    one; [free], [cudaFree] and [cublasDestroy] release it.  Allocations are
    taken as successful when unchecked ([malloc]'s result is not tested);
    a buffer is an array and a copy transfers the whole array. *)
Inductive resource :=
  R_h_A | R_h_B | R_h_C | R_h_C2 | R_d_A | R_d_B | R_d_C | R_d_C2
| R_start | R_stop | R_handle.

Scheme Equality for resource.

(** The observable output of a run. *)
Inductive event :=
| Perf (trial : option Z) (gigaFlops msecPerMatrixMul : fl)
    (** the performance line; [None] for the normal-power baseline *)
| PrintDiff (data1 data2 : Z -> fl)
| Compare (reference candidate : Z -> fl) (result : bool)
    (** the PASS/FAIL line and the buffers [sdkCompareL2fe] compared *)
| Report (nIter fail_count : Z) (failure_rate average_perf : fl).

Record environment := mkEnv {
  env_ok : nat -> bool;
  env_gemm : nat -> (Z -> fl) -> (Z -> fl) -> (Z -> fl);
  env_time : nat -> fl;
  env_rand : nat -> Z;
  env_uninit : Z -> fl }.

Record state := mkState {
  ncalls : nat;               (** checked calls issued *)
  nsgemm : nat;               (** cublasSgemm calls issued *)
  ntime : nat;                (** cudaEventElapsedTime calls issued *)
  live : list resource;
  mem : resource -> Z -> fl;  (** buffer contents *)
  trace : list event }.

Inductive outcome (A : Type) :=
| Done (a : A) (s : state)
| Exit (s : state).
Arguments Done {A}.
Arguments Exit {A}.

Definition final_state {A} (o : outcome A) : state :=
  match o with Done _ s => s | Exit s => s end.

Definition M (A : Type) := state -> outcome A.

Definition ret {A} (a : A) : M A := fun s => Done a s.

Definition bind {A B} (m : M A) (k : A -> M B) : M B :=
  fun s => match m s with Done a s' => k a s' | Exit s' => Exit s' end.

Notation "'let*' x ':=' m 'in' k" := (bind m (fun x => k))
  (at level 200, x name, m at level 100, k at level 200).

Definition get : M state := fun s => Done s s.

Definition modify (f : state -> state) : M unit := fun s => Done tt (f s).

(** A call that may abort the process ([abort()] after a failed
    [assert]): the run ends at once, nothing after it runs and nothing is
    released. *)
Definition abort_on_none {A} (o : option A) : M A :=
  fun s => match o with Some a => Done a s | None => Exit s end.

Definition set_mem (m : resource -> Z -> fl) (r : resource) (v : Z -> fl)
    : resource -> Z -> fl :=
  fun r' => if resource_beq r' r then v else m r'.

Section Driver.

Variable env : environment.

Definition incr_calls (s : state) : state :=
  mkState (S (ncalls s)) (nsgemm s) (ntime s) (live s) (mem s) (trace s).

Definition acquire (r : resource) (s : state) : state :=
  mkState (ncalls s) (nsgemm s) (ntime s) (r :: live s)
          (set_mem (mem s) r (env_uninit env)) (trace s).

Definition release (r : resource) (s : state) : state :=
  mkState (ncalls s) (nsgemm s) (ntime s) (remove resource_eq_dec r (live s))
          (mem s) (trace s).

Definition store (r : resource) (v : Z -> fl) (s : state) : state :=
  mkState (ncalls s) (nsgemm s) (ntime s) (live s) (set_mem (mem s) r v)
          (trace s).

Definition log (e : event) (s : state) : state :=
  mkState (ncalls s) (nsgemm s) (ntime s) (live s) (mem s) (trace s ++ [e]).

(** A call wrapped in [checkCudaErrors] with effect [f] on success. *)
Definition checked (f : state -> state) : M unit :=
  fun s => if env_ok env (ncalls s) then Done tt (f (incr_calls s))
           else Exit (incr_calls s).

Definition malloc (r : resource) : M unit := modify (acquire r).
Definition free (r : resource) : M unit := modify (release r).
Definition cudaMalloc (r : resource) : M unit := checked (acquire r).
Definition cudaFree (r : resource) : M unit := checked (release r).
Definition cudaEventCreate (r : resource) : M unit := checked (acquire r).
Definition cublasCreate : M unit := checked (acquire R_handle).
Definition cublasDestroy : M unit := checked (release R_handle).
Definition cudaEventRecord : M unit := checked (fun s => s).
Definition cudaEventSynchronize : M unit := checked (fun s => s).
Definition cudaMemcpy (dst src : resource) : M unit :=
  checked (fun s => store dst (mem s src) s).

(** [cublasSgemm(handle, N, N, uiWB, uiHA, uiWA, &alpha, d_B, uiWB, d_A,
    uiWA, &beta, dst, uiWB)] in the host program: the device writes its
    result into [dst] (its exact-arithmetic value is [invoke_sgemm]). *)
Definition cublasSgemm_call (dst : resource) : M unit :=
  checked (fun s =>
    mkState (ncalls s) (S (nsgemm s)) (ntime s) (live s)
            (set_mem (mem s) dst
               (env_gemm env (nsgemm s) (mem s R_d_A) (mem s R_d_B)))
            (trace s)).

Definition cudaEventElapsedTime : M fl :=
  fun s => let s1 := incr_calls s in
    if env_ok env (ncalls s) then
      Done (env_time env (ntime s))
           (mkState (ncalls s1) (nsgemm s1) (S (ntime s1)) (live s1) (mem s1)
                    (trace s1))
    else Exit s1.

Definition printf (e : event) : M unit := modify (log e).

(** [int n = 10240] and the sizes of lines 237-256. *)
Definition n : Z := 10240.
Definition matrix_size : sMatrixSize := mkMatrixSize n n n n n n.
Definition size_A : Z := u32 (uiWA matrix_size * uiHA matrix_size).
Definition size_B : Z := u32 (uiWB matrix_size * uiHB matrix_size).
Definition size_C : Z := u32 (uiWC matrix_size * uiHC matrix_size).
Definition nIter : Z := 100.

(** [double flopsPerMatrixMul = 2.0 * (double)uiHC * (double)uiWC *
    (double)uiHB;] *)
Definition flopsPerMatrixMul (ms : sMatrixSize) : fl :=
  fmul binary64
    (fmul binary64 (fmul binary64 (Fin 2) (of_int binary64 (uiHC ms)))
                   (of_int binary64 (uiWC ms)))
    (of_int binary64 (uiHB ms)).

(** [double gigaFlops = (flopsPerMatrixMul * 1.0e-9f) /
    (msecPerMatrixMul / 1000.0f);]: the product is in [double], the
    quotient of the [float] time by [1000.0f] in [float], promoted. *)
Definition gigaFlops_of (ms : sMatrixSize) (msecPerMatrixMul : fl) : fl :=
  fdiv binary64
    (fmul binary64 (flopsPerMatrixMul ms) (lit_float (1 # 1000000000)))
    (fdiv binary32 msecPerMatrixMul (lit_float 1000)).

(** [total_perf += gigaFlops;] with [float total_perf]. *)
Definition accumulate_perf (total_perf gigaFlops : fl) : fl :=
  double_to_float (fadd binary64 total_perf gigaFlops).

(** [(float)fail_count/nIter] and [total_perf/nIter]. *)
Definition failure_rate (fail_count nIter : Z) : fl :=
  fdiv binary32 (of_int binary32 fail_count) (of_int binary32 nIter).
Definition average_perf (total_perf : fl) (nIter : Z) : fl :=
  fdiv binary32 total_perf (of_int binary32 nIter).

(** Lines 236-283: allocations, [srand(2006)], [randomInit] of [h_A] and
    [h_B] (the [unsigned int] sizes passed to its [int] parameter), the
    copies to the device, the two events and the cuBLAS handle. *)
Definition init_inputs (s : state) : state :=
  let rA := randomInit (env_rand env) 0 (mem s R_h_A) (to_int32 size_A) in
  let rB := randomInit (env_rand env) (snd rA) (mem s R_h_B) (to_int32 size_B) in
  store R_h_B (fst rB) (store R_h_A (fst rA) s).

Definition matrixMultiply_setup : M unit :=
  let* _ := malloc R_h_A in
  let* _ := malloc R_h_B in
  let* _ := malloc R_h_C in
  let* _ := malloc R_h_C2 in
  let* _ := cudaMalloc R_d_A in
  let* _ := cudaMalloc R_d_B in
  let* _ := cudaMalloc R_d_C in
  let* _ := cudaMalloc R_d_C2 in
  let* _ := modify init_inputs in
  let* _ := cudaMemcpy R_d_A R_h_A in
  let* _ := cudaMemcpy R_d_B R_h_B in
  let* _ := cudaEventCreate R_start in
  let* _ := cudaEventCreate R_stop in
  cublasCreate.

(** Lines 285-312: the normal-power product into [d_C2], timed, and its
    copy to [h_C2]. *)
Definition matrixMultiply_baseline : M unit :=
  let* _ := cudaEventRecord in
  let* _ := cublasSgemm_call R_d_C2 in
  let* _ := cudaEventRecord in
  let* _ := cudaEventSynchronize in
  let* msecTotal := cudaEventElapsedTime in
  let* _ := printf (Perf None (gigaFlops_of matrix_size msecTotal) msecTotal) in
  cudaMemcpy R_h_C2 R_d_C2.

(** Lines 325-366: [for (int j = 0; j < nIter; j++)], from trial [j] with
    the counters [fail_count] and [total_perf]. *)
Fixpoint trials (fuel : nat) (j fail_count : Z) (total_perf : fl) : M (Z * fl) :=
  match fuel with
  | O => ret (fail_count, total_perf)
  | S fuel' =>
      let* _ := cudaEventRecord in
      let* _ := cublasSgemm_call R_d_C in
      let* _ := cudaEventRecord in
      let* _ := cudaEventSynchronize in
      let* msecTotal := cudaEventElapsedTime in
      let gigaFlops := gigaFlops_of matrix_size msecTotal in
      let* _ := printf (Perf (Some j) gigaFlops msecTotal) in
      let total_perf' := accumulate_perf total_perf gigaFlops in
      let* _ := cudaMemcpy R_h_C R_d_C in
      let* s := get in
      let* resCUBLAS := abort_on_none
                          (sdkCompareL2fe (mem s R_h_C2) (mem s R_h_C) size_C
                             (lit_float (1 # 10000000000))) in
      let* fail_count' :=
        if resCUBLAS then ret fail_count
        else let* _ := printf (PrintDiff (mem s R_h_C2) (mem s R_h_C)) in
             ret (fail_count + 1) in
      let* _ := printf (Compare (mem s R_h_C2) (mem s R_h_C) resCUBLAS) in
      trials fuel' (j + 1) fail_count' total_perf'
  end.

(** Lines 368-370. *)
Definition matrixMultiply_report (fail_count : Z) (total_perf : fl) : M unit :=
  printf (Report nIter fail_count (failure_rate fail_count nIter)
                 (average_perf total_perf nIter)).

(** Lines 395-412: the handle, the host buffers, the device buffers; the
    events [start] and [stop] are not destroyed. *)
Definition matrixMultiply_cleanup : M unit :=
  let* _ := cublasDestroy in
  let* _ := free R_h_A in
  let* _ := free R_h_B in
  let* _ := free R_h_C in
  let* _ := free R_h_C2 in
  let* _ := cudaFree R_d_A in
  let* _ := cudaFree R_d_B in
  let* _ := cudaFree R_d_C in
  cudaFree R_d_C2.

Definition matrixMultiply : M Z :=
  let* _ := matrixMultiply_setup in
  let* _ := matrixMultiply_baseline in
  let* r := trials (Z.to_nat nIter) 0 0 (Fin 0) in
  let* _ := matrixMultiply_report (fst r) (snd r) in
  let* _ := matrixMultiply_cleanup in
  ret 0.

Definition init_state : state := mkState 0 0 0 [] (fun _ => env_uninit env) [].

Definition run : outcome Z := matrixMultiply init_state.

End Driver.

Arguments randomInit : simpl never.
Arguments sdkCompareL2fe : simpl never.
Arguments sdkCompareL2fe_result : simpl never.

(** Readings of a trace: the failing comparisons, the comparisons, and
    the trial throughputs added up as [total_perf] adds them. *)
Fixpoint count_fails (tr : list event) : Z :=
  match tr with
  | [] => 0
  | Compare _ _ false :: t => 1 + count_fails t
  | _ :: t => count_fails t
  end.

Fixpoint count_compares (tr : list event) : Z :=
  match tr with
  | [] => 0
  | Compare _ _ _ :: t => 1 + count_compares t
  | _ :: t => count_compares t
  end.

Fixpoint perf_total (acc : fl) (tr : list event) : fl :=
  match tr with
  | [] => acc
  | Perf (Some _) g _ :: t => perf_total (accumulate_perf acc g) t
  | _ :: t => perf_total acc t
  end.

(** The host copy of the first product computed by the device: the
    product of the initial [h_A] and [h_B] filled by [randomInit]. *)
Definition first_sgemm_result (env : environment) : Z -> fl :=
  let rA := randomInit (env_rand env) 0 (env_uninit env) (to_int32 size_A) in
  let rB := randomInit (env_rand env) (snd rA) (env_uninit env)
                       (to_int32 size_B) in
  env_gemm env 0 (fst rA) (fst rB).

(** An environment where every call succeeds and every measured time is
    0 ms. *)
Definition env_zero_time : environment :=
  mkEnv (fun _ => true) (fun _ a _ => a) (fun _ => Fin 0)
        (fun _ => 0) (fun _ => Fin 0).

(** ** printDiff (lines 196-230)

    The console output as a list of lines, one constructor per [printf];
    a [float] argument is printed with its value (the promotion to
    [double] is exact).  [k = j * width + i] and [error_count++] are
    computed in [int]: an overflow there is undefined behaviour, which the
    model renders as the two's-complement wrap [int32_wrap]; the theorems
    about printDiff assume [width * height < 2^31], under which neither
    overflows (nor do [i++] and [j++], bounded by [width] and [height]). *)
Inductive diff_line :=
| DiffHeader (iListLength : Z) (fListTol : fl)
    (** ["Listing first %d Differences > %.6f...\n"] *)
| DiffRow (j : Z)
    (** ["\n  Row %d:\n"] *)
| DiffLoc (i j : Z) (cpu gpu fDiff : fl)
    (** ["    Loc(%d,%d)\tCPU=%.5f\tGPU=%.5f\tDiff=%.6f\n"] *)
| DiffTotal (error_count : Z).
    (** [" \n  Total Errors = %d\n"] *)

(** Two's-complement reduction of an integer to a 32-bit [int]. *)
Definition int32_wrap (z : Z) : Z := (z + 2 ^ 31) mod 2 ^ 32 - 2 ^ 31.

(** The [i] loop of row [j], from column [i] with [fuel] columns left. *)
Fixpoint printDiff_cols (data1 data2 : Z -> fl) (width j iListLength : Z)
    (fListTol : fl) (i : Z) (fuel : nat) (error_count : Z)
    (out : list diff_line) : Z * list diff_line :=
  match fuel with
  | O => (error_count, out)
  | S fuel' =>
      let k := int32_wrap (int32_wrap (j * width) + i) in
      let fDiff := fabs (fsub binary32 (data1 k) (data2 k)) in
      if flt fListTol fDiff then
        let out := if error_count <? iListLength
                   then out ++ [DiffLoc i j (data1 k) (data2 k) fDiff]
                   else out in
        printDiff_cols data1 data2 width j iListLength fListTol (i + 1) fuel'
          (int32_wrap (error_count + 1)) out
      else
        printDiff_cols data1 data2 width j iListLength fListTol (i + 1) fuel'
          error_count out
  end.

(** The [j] loop, from row [j] with [fuel] rows left. *)
Fixpoint printDiff_rows (data1 data2 : Z -> fl) (width iListLength : Z)
    (fListTol : fl) (j : Z) (fuel : nat) (error_count : Z)
    (out : list diff_line) : Z * list diff_line :=
  match fuel with
  | O => (error_count, out)
  | S fuel' =>
      let out := if error_count <? iListLength then out ++ [DiffRow j] else out in
      let '(error_count, out) :=
        printDiff_cols data1 data2 width j iListLength fListTol 0
          (Z.to_nat width) error_count out in
      printDiff_rows data1 data2 width iListLength fListTol (j + 1) fuel'
        error_count out
  end.

Definition printDiff (data1 data2 : Z -> fl) (width height iListLength : Z)
    (fListTol : fl) : list diff_line :=
  let '(error_count, out) :=
    printDiff_rows data1 data2 width iListLength fListTol 0 (Z.to_nat height) 0
      [DiffHeader iListLength fListTol] in
  out ++ [DiffTotal error_count].

(** Readings of printDiff's output (spec side): the test of line 212 at
    column [i] of row [j], the positions passing it in row-major order,
    and the listed and row-header lines of an output.  They use the
    mathematical index [j * width + i], the program's one when no [int]
    overflows. *)
Definition zrange (n : Z) : list Z := map Z.of_nat (seq 0 (Z.to_nat n)).

Definition exceeds (data1 data2 : Z -> fl) (width : Z) (fListTol : fl)
    (i j : Z) : bool :=
  flt fListTol (fabs (fsub binary32 (data1 (j * width + i)) (data2 (j * width + i)))).

Definition row_positions (data1 data2 : Z -> fl) (width : Z) (fListTol : fl)
    (j : Z) : list (Z * Z) :=
  map (fun i => (i, j)) (filter (fun i => exceeds data1 data2 width fListTol i j)
                                (zrange width)).

Definition diff_positions (data1 data2 : Z -> fl) (width height : Z)
    (fListTol : fl) : list (Z * Z) :=
  flat_map (row_positions data1 data2 width fListTol) (zrange height).

Definition loc_line (data1 data2 : Z -> fl) (width : Z) (p : Z * Z) : diff_line :=
  let '(i, j) := p in
  let k := j * width + i in
  DiffLoc i j (data1 k) (data2 k) (fabs (fsub binary32 (data1 k) (data2 k))).

Definition is_loc (l : diff_line) : bool :=
  match l with DiffLoc _ _ _ _ _ => true | _ => false end.

Definition is_row (l : diff_line) : bool :=
  match l with DiffRow _ => true | _ => false end.

(** The NVML device a call addresses ([None] for [nvmlInit]). *)
Definition call_device (c : nvml_call) : option Z :=
  match c with
  | NvmlInit => None
  | NvmlDeviceGetHandleByIndex d | NvmlDeviceSetPowerManagementLimit d _
  | NvmlDeviceSetApplicationsClocks d _ _ | NvmlDeviceResetApplicationsClocks d
  | NvmlDeviceSetAutoBoostedClocksEnabled d _ => Some d
  end.

(** ** main (lines 430-442)

    The banner, then [matrixMultiply()], whose result is the process's
    exit status; an abort in [checkCudaErrors] exits with
    [EXIT_FAILURE].  (The run's only other early end, the comparator's
    assert, never fails at the tolerance [1.0e-10f] the run passes.)  [devID], [sizeMult] and [matrix_size] are unused. *)
Definition EXIT_FAILURE : Z := 1.

Definition main (env : environment) : string * Z * state :=
  ("[Matrix Multiply CUBLAS] - Starting..."%string,
   match run env with Done r s => r | Exit s => EXIT_FAILURE end,
   final_state (run env)).

(** The run's output in closed form (spec side).  The inputs [h_A] and
    [h_B] as filled by randomInit; trial [t] (0-based) times the
    [(t+1)]-th measurement, multiplies with the [(t+1)]-th [cublasSgemm]
    call on the same inputs and compares with the first product. *)
Definition initial_A (env : environment) : Z -> fl :=
  fst (randomInit (env_rand env) 0 (env_uninit env) (to_int32 size_A)).

Definition initial_B (env : environment) : Z -> fl :=
  fst (randomInit (env_rand env)
         (snd (randomInit (env_rand env) 0 (env_uninit env) (to_int32 size_A)))
         (env_uninit env) (to_int32 size_B)).

Definition trial_events (env : environment) (t : nat) : list event :=
  let R := first_sgemm_result env in
  let m := env_time env (S t) in
  let c := env_gemm env (S t) (initial_A env) (initial_B env) in
  let res := sdkCompareL2fe_result R c size_C (lit_float (1 # 10000000000)) in
  Perf (Some (Z.of_nat t)) (gigaFlops_of matrix_size m) m ::
  (if res then [] else [PrintDiff R c]) ++ [Compare R c res].

Definition expected_trace (env : environment) : list event :=
  let m0 := env_time env 0 in
  let ts := flat_map (trial_events env) (seq 0 (Z.to_nat nIter)) in
  let F := count_fails ts in
  Perf None (gigaFlops_of matrix_size m0) m0 ::
  ts ++ [Report nIter F (failure_rate F nIter)
                (average_perf (perf_total (Fin 0) ts) nIter)].

(** The checked calls a completed run issues: 9 in the set-up, 6 for the
    baseline, 6 per trial, 5 in the clean-up. *)
Definition total_checked_calls : nat := 9 + 6 + 6 * Z.to_nat nIter + 5.

(* ================================================================== *)
(** * Proofs *)

(** ** Reference Compute: the loops under the no-wrap condition *)
Section CPUProofs.
Context {F D : Type} (to_double : F -> D) (to_float : D -> F)
        (d0 : D) (dadd dmul : D -> D -> D).

Lemma u32_small z : 0 <= z < 2 ^ 32 -> u32 z = z.
Proof. intros H. unfold u32. apply Z.mod_small; exact H. Qed.

Lemma cpu_sum_nowrap A B wA wB i j kk :
  0 <= i * wA -> i * wA + Z.of_nat kk <= 2 ^ 32 ->
  0 <= j -> 0 <= wB -> (Z.of_nat kk - 1) * wB + j < 2 ^ 32 ->
  cpu_sum to_double d0 dadd dmul A B wA wB i j kk =
  dsum d0 dadd kk (fun k => dmul (to_double (A (i * wA + k)))
                                 (to_double (B (k * wB + j)))).
Proof.
  induction kk as [|kk IH]; intros H1 H2 H3 H4 H5; [reflexivity|].
  cbn [cpu_sum dsum]. rewrite Nat2Z.inj_succ in *. unfold Z.succ in *.
  assert (Hk : Z.of_nat kk * wB + j < 2 ^ 32) by lia.
  assert (0 <= Z.of_nat kk * wB) by (apply Z.mul_nonneg_nonneg; lia).
  rewrite IH by nia.
  rewrite (u32_small (i * wA + _)) by lia.
  rewrite (u32_small (_ * wB + j)) by nia.
  reflexivity.
Qed.

Lemma cpu_jloop_spec C A B wA wB i jj p :
  0 <= i * wB -> i * wB + Z.of_nat jj <= 2 ^ 32 ->
  cpu_jloop to_double to_float d0 dadd dmul C A B wA wB i jj p =
  if (i * wB <=? p) && (p <? i * wB + Z.of_nat jj)
  then to_float (cpu_sum to_double d0 dadd dmul A B wA wB i (p - i * wB)
                   (Z.to_nat wA))
  else C p.
Proof.
  induction jj as [|jj IH]; intros H1 H2.
  - cbn [cpu_jloop].
    destruct ((i * wB <=? p) && (p <? i * wB + Z.of_nat 0)) eqn:E;
      [|reflexivity].
    apply andb_prop in E as [E1 E2].
    rewrite Z.leb_le in E1. rewrite Z.ltb_lt in E2. simpl in E2. lia.
  - cbn [cpu_jloop]. unfold upd.
    rewrite u32_small by lia.
    rewrite Nat2Z.inj_succ in H2 |- *.
    destruct (Z.eqb_spec p (i * wB + Z.of_nat jj)) as [->|Hne].
    + replace (i * wB + Z.of_nat jj - i * wB) with (Z.of_nat jj) by lia.
      replace ((i * wB <=? i * wB + Z.of_nat jj) &&
               (i * wB + Z.of_nat jj <? i * wB + Z.succ (Z.of_nat jj)))
        with true by (symmetry; apply andb_true_intro; split;
                      [apply Z.leb_le | apply Z.ltb_lt]; lia).
      reflexivity.
    + rewrite IH by lia.
      destruct (i * wB <=? p) eqn:E1; simpl; [|reflexivity].
      destruct (p <? i * wB + Z.of_nat jj) eqn:E2;
        destruct (p <? i * wB + Z.succ (Z.of_nat jj)) eqn:E3;
        rewrite ?Z.ltb_lt, ?Z.ltb_ge in *; auto; lia.
Qed.

Lemma cpu_iloop_spec C A B wA wB ii p :
  0 <= wB -> Z.of_nat ii * wB <= 2 ^ 32 ->
  cpu_iloop to_double to_float d0 dadd dmul C A B wA wB ii p =
  if (0 <=? p) && (p <? Z.of_nat ii * wB)
  then to_float (cpu_sum to_double d0 dadd dmul A B wA wB (p / wB) (p mod wB)
                   (Z.to_nat wA))
  else C p.
Proof.
  induction ii as [|ii IH]; intros H1 H2.
  - cbn [cpu_iloop].
    destruct ((0 <=? p) && (p <? Z.of_nat 0 * wB)) eqn:E; [|reflexivity].
    apply andb_prop in E as [E1 E2]. rewrite Z.ltb_lt in E2. simpl in E2. lia.
  - cbn [cpu_iloop]. rewrite Nat2Z.inj_succ in H2 |- *.
    rewrite cpu_jloop_spec by nia.
    rewrite Z2Nat.id by lia.
    destruct ((Z.of_nat ii * wB <=? p) && (p <? Z.of_nat ii * wB + wB)) eqn:E.
    + apply andb_prop in E as [E1 E2].
      rewrite Z.leb_le in E1. rewrite Z.ltb_lt in E2.
      assert (Hq : p / wB = Z.of_nat ii).
      { symmetry. apply Z.div_unique with (p - Z.of_nat ii * wB); lia. }
      assert (Hr : p mod wB = p - Z.of_nat ii * wB).
      { symmetry. apply Z.mod_unique with (Z.of_nat ii); lia. }
      rewrite Hq, Hr.
      replace ((0 <=? p) && (p <? Z.succ (Z.of_nat ii) * wB)) with true
        by (symmetry; apply andb_true_intro; split;
            [apply Z.leb_le | apply Z.ltb_lt]; nia).
      reflexivity.
    + rewrite IH by nia.
      destruct (0 <=? p) eqn:E0; simpl; [|reflexivity].
      rewrite Z.leb_le in E0.
      destruct (p <? Z.of_nat ii * wB) eqn:E2;
        destruct (p <? Z.succ (Z.of_nat ii) * wB) eqn:E3;
        rewrite ?Z.ltb_lt, ?Z.ltb_ge in *; auto.
      * exfalso; nia.
      * exfalso. apply andb_false_iff in E as [E|E];
          rewrite ?Z.leb_gt, ?Z.ltb_ge in E; nia.
Qed.
End CPUProofs.

Section CPUTheorems.
Context {F D : Type} (to_double : F -> D) (to_float : D -> F)
        (d0 : D) (dadd dmul : D -> D -> D).

Lemma cpu_jloop_S_at C A B wA wB i jj p :
  cpu_jloop to_double to_float d0 dadd dmul C A B wA wB i (S jj) p =
  if Z.eqb p (u32 (i * wB + Z.of_nat jj))
  then to_float (cpu_sum to_double d0 dadd dmul A B wA wB i (Z.of_nat jj)
                   (Z.to_nat wA))
  else cpu_jloop to_double to_float d0 dadd dmul C A B wA wB i jj p.
Proof. reflexivity. Qed.

Lemma cpu_iloop_S C A B wA wB ii :
  cpu_iloop to_double to_float d0 dadd dmul C A B wA wB (S ii) =
  cpu_jloop to_double to_float d0 dadd dmul
    (cpu_iloop to_double to_float d0 dadd dmul C A B wA wB ii)
    A B wA wB (Z.of_nat ii) (Z.to_nat wB).
Proof. reflexivity. Qed.

(** C2 (as amended): when every flat index fits the [unsigned int]
    arithmetic ([hA*wA], [wA*wB], [hA*wB] at most 2^32), matrixMulCPU
    stores at position (i,j) the double accumulation over k of
    [(double)A[i*wA+k] * (double)B[k*wB+j]], narrowed to float once. *)
Theorem matrixMulCPU_entry (C A B : Z -> F) (hA wA wB i j : Z) :
  0 <= hA -> 0 <= wA -> 0 <= wB ->
  hA * wA <= 2 ^ 32 -> wA * wB <= 2 ^ 32 -> hA * wB <= 2 ^ 32 ->
  0 <= i < hA -> 0 <= j < wB ->
  matrixMulCPU to_double to_float d0 dadd dmul C A B hA wA wB (i * wB + j) =
  rowmajor_entry to_double to_float d0 dadd dmul A B wA wB i j.
Proof.
  intros HhA HwA HwB H1 H2 H3 Hi Hj.
  unfold matrixMulCPU. rewrite cpu_iloop_spec by (rewrite ?Z2Nat.id; lia).
  rewrite Z2Nat.id by lia.
  replace ((0 <=? i * wB + j) && (i * wB + j <? hA * wB)) with true
    by (symmetry; apply andb_true_intro; split;
        [apply Z.leb_le | apply Z.ltb_lt]; nia).
  assert (Hq : (i * wB + j) / wB = i).
  { symmetry. apply Z.div_unique with j; lia. }
  assert (Hr : (i * wB + j) mod wB = j).
  { symmetry. apply Z.mod_unique with i; lia. }
  rewrite Hq, Hr. unfold rowmajor_entry. f_equal.
  apply cpu_sum_nowrap; rewrite ?Z2Nat.id; nia.
Qed.
End CPUTheorems.

(** C2 counterexample: [hA = 2], [wA = 1], [wB = 2^31 + 1].  The store
    for (1, 2^31 - 1) goes to [u32 (1 * wB + 2^31 - 1) = 0], so position
    (0,0) ends up holding A[1]*B[2^31-1] (here 2^32), not A[0]*B[0] (1). *)
Lemma matrixMulCPU_wrap_counterexample :
  matrixMulCPU (F := Z) (D := Z) id id 0 Z.add Z.mul
    (fun _ => 0) (fun p => p + 1) (fun p => p + 1) 2 1 (2 ^ 31 + 1)
    (0 * (2 ^ 31 + 1) + 0) <>
  rowmajor_entry (F := Z) (D := Z) id id 0 Z.add Z.mul
    (fun p => p + 1) (fun p => p + 1) 1 (2 ^ 31 + 1) 0 0.
Proof.
  unfold matrixMulCPU.
  change (Z.to_nat 2) with (S (S O)).
  rewrite cpu_iloop_S.
  assert (HN : Z.to_nat (2 ^ 31 + 1) = S (S (Z.to_nat (2 ^ 31 - 1)))).
  { rewrite <- !Z2Nat.inj_succ by lia. reflexivity. }
  rewrite HN. clear HN.
  assert (EN : Z.of_nat (Z.to_nat (2 ^ 31 - 1)) = 2 ^ 31 - 1) by (apply Z2Nat.id; lia).
  remember (Z.to_nat (2 ^ 31 - 1)) as N eqn:HN. clear HN.
  rewrite cpu_jloop_S_at, (Nat2Z.inj_succ N), EN.
  replace (0 * (2 ^ 31 + 1) + 0 =? u32 (Z.of_nat 1 * (2 ^ 31 + 1) + Z.succ (2 ^ 31 - 1)))
    with false by reflexivity.
  cbv beta iota.
  rewrite cpu_jloop_S_at, EN.
  replace (0 * (2 ^ 31 + 1) + 0 =? u32 (Z.of_nat 1 * (2 ^ 31 + 1) + (2 ^ 31 - 1)))
    with true by reflexivity.
  cbv beta iota.
  vm_compute. discriminate.
Qed.

Lemma matrixMulCPU_entry_witness :
  matrixMulCPU (F := Z) (D := Z) id id 0 Z.add Z.mul (fun _ => 0)
    (fun p => p + 1) (fun p => 2 * p) 3 2 4 (1 * 4 + 2) =
  rowmajor_entry (F := Z) (D := Z) id id 0 Z.add Z.mul
    (fun p => p + 1) (fun p => 2 * p) 2 4 1 2.
Proof. apply matrixMulCPU_entry; lia. Defined.

(** ** The accelerated invoker: operand swap against the row-major product *)

Lemma dsum_ext {D : Type} (d0 : D) (dadd : D -> D -> D) n (f g : Z -> D) :
  (forall k, 0 <= k < Z.of_nat n -> f k = g k) ->
  dsum d0 dadd n f = dsum d0 dadd n g.
Proof.
  induction n as [|n IH]; intros H; [reflexivity|].
  cbn [dsum]. rewrite IH by (intros; apply H; lia). rewrite H by lia.
  reflexivity.
Qed.

Lemma to_int32_small z : 0 <= z < 2 ^ 31 -> to_int32 z = z.
Proof.
  intros H. unfold to_int32. destruct (Z.ltb_spec z (2 ^ 31)); lia.
Qed.

Section SgemmTheorems.
Context {R : Type} (r0 : R) (radd rmul : R -> R -> R) (is_zero : R -> bool)
        (alpha beta : R).
Hypothesis Hcomm : forall x y, rmul x y = rmul y x.
Hypothesis Halpha : forall x, rmul alpha x = x.
Hypothesis Hbeta : is_zero beta = true.

Lemma invoke_sgemm_at ms d_A d_B d_C :
  0 < uiWA ms < 2 ^ 31 -> 0 <= uiHA ms < 2 ^ 31 -> 0 < uiWB ms < 2 ^ 31 ->
  fst (invoke_sgemm r0 radd rmul is_zero ms alpha beta d_A d_B d_C) =
    CUBLAS_STATUS_SUCCESS /\
  forall p,
    snd (invoke_sgemm r0 radd rmul is_zero ms alpha beta d_A d_B d_C) p =
    if (0 <=? p) && (p / uiWB ms <? uiHA ms) then
      dsum r0 radd (Z.to_nat (uiWA ms))
        (fun k => rmul (d_A (p / uiWB ms * uiWA ms + k))
                       (d_B (k * uiWB ms + p mod uiWB ms)))
    else d_C p.
Proof.
  intros HA HH HB. unfold invoke_sgemm, cublasSgemm.
  rewrite !to_int32_small by lia.
  replace ((uiWB ms <? 0) || (uiHA ms <? 0) || (uiWA ms <? 0) ||
           (uiWB ms <? Z.max 1 (uiWB ms)) || (uiWA ms <? Z.max 1 (uiWA ms)) ||
           (uiWB ms <? Z.max 1 (uiWB ms))) with false
    by (symmetry; repeat rewrite orb_false_iff; repeat split;
        apply Z.ltb_ge; lia).
  split; [reflexivity|]. intros p. cbn [snd].
  assert (Hm : (p mod uiWB ms <? uiWB ms) = true)
    by (apply Z.ltb_lt; apply Z.mod_pos_bound; lia).
  rewrite Hm, andb_true_r. rewrite Hbeta, Halpha.
  destruct ((0 <=? p) && (p / uiWB ms <? uiHA ms)); [|reflexivity].
  apply dsum_ext. intros k Hk. cbn [op_elem]. rewrite Hcomm.
  f_equal; f_equal; lia.
Qed.

(** C1 (as amended): for a valid descriptor whose dimensions are
    positive and below 2^31 (the range the library's [int] parameters
    and argument checks accept), the call with left operand [d_B]
    (ld = width(B)), right operand [d_A] (ld = width(A)), output ld =
    width(B) and no transposition succeeds and leaves in [d_C] the
    row-major product A.B (arithmetic exact); outside the hA x wB block
    [d_C] is untouched; and when hA*wA, wA*wB, hA*wB are at most 2^32
    the whole buffer equals the result of matrixMulCPU on the same
    inputs. *)
Theorem invoke_sgemm_rowmajor_product ms d_A d_B d_C :
  valid_size ms ->
  0 < uiWA ms < 2 ^ 31 -> 0 < uiHA ms < 2 ^ 31 -> 0 < uiWB ms < 2 ^ 31 ->
  let res := invoke_sgemm r0 radd rmul is_zero ms alpha beta d_A d_B d_C in
  fst res = CUBLAS_STATUS_SUCCESS /\
  (forall i j, 0 <= i < uiHA ms -> 0 <= j < uiWB ms ->
     snd res (i * uiWB ms + j) =
     rowmajor_entry id id r0 radd rmul d_A d_B (uiWA ms) (uiWB ms) i j) /\
  (forall p, ~ (0 <= p < uiHA ms * uiWB ms) -> snd res p = d_C p) /\
  (uiHA ms * uiWA ms <= 2 ^ 32 -> uiWA ms * uiWB ms <= 2 ^ 32 ->
   uiHA ms * uiWB ms <= 2 ^ 32 ->
   forall p, snd res p =
     matrixMulCPU id id r0 radd rmul d_C d_A d_B
       (uiHA ms) (uiWA ms) (uiWB ms) p).
Proof.
  intros Hv HA HH HB res.
  destruct (invoke_sgemm_at ms d_A d_B d_C) as [Hst Hp]; try lia.
  subst res. split; [exact Hst|]. split; [|split].
  - intros i j Hi Hj. rewrite Hp.
    assert (Hq : (i * uiWB ms + j) / uiWB ms = i).
    { symmetry. apply Z.div_unique with j; lia. }
    assert (Hr : (i * uiWB ms + j) mod uiWB ms = j).
    { symmetry. apply Z.mod_unique with i; lia. }
    rewrite Hq, Hr.
    replace ((0 <=? i * uiWB ms + j) && (i <? uiHA ms)) with true
      by (symmetry; apply andb_true_intro; split;
          [apply Z.leb_le | apply Z.ltb_lt]; nia).
    reflexivity.
  - intros p Hout. rewrite Hp.
    destruct ((0 <=? p) && (p / uiWB ms <? uiHA ms)) eqn:E; [|reflexivity].
    exfalso. apply Hout. apply andb_prop in E as [E1 E2].
    rewrite Z.leb_le in E1. rewrite Z.ltb_lt in E2. split; [lia|].
    assert (Hdm := Z.div_mod p (uiWB ms) ltac:(lia)).
    assert (Hmb := Z.mod_pos_bound p (uiWB ms) ltac:(lia)).
    nia.
  - intros H1 H2 H3 p. rewrite Hp. unfold matrixMulCPU.
    rewrite (cpu_iloop_spec id id r0 radd rmul) by (rewrite ?Z2Nat.id; lia).
    rewrite Z2Nat.id by lia.
    assert (Hdm := Z.div_mod p (uiWB ms) ltac:(lia)).
    assert (Hmb := Z.mod_pos_bound p (uiWB ms) ltac:(lia)).
    destruct (Z.leb_spec 0 p) as [Hp0|Hp0]; cbn [andb]; [|reflexivity].
    destruct (Z.ltb_spec (p / uiWB ms) (uiHA ms)) as [Hlt|Hge];
      destruct (Z.ltb_spec p (uiHA ms * uiWB ms)) as [Hlt'|Hge'].
    + assert (0 <= p / uiWB ms) by (apply Z.div_pos; lia).
      unfold id. rewrite (cpu_sum_nowrap id r0 radd rmul); try nia.
      reflexivity.
    + exfalso. nia.
    + exfalso.
      assert (p / uiWB ms < uiHA ms) by (apply Z.div_lt_upper_bound; nia).
      lia.
    + reflexivity.
Qed.
End SgemmTheorems.

Lemma invoke_sgemm_rowmajor_product_witness :
  let ms := mkMatrixSize 2 3 4 2 4 3 in
  let res := invoke_sgemm 0 Z.add Z.mul (Z.eqb 0) ms 1 0
               (fun p => p + 1) (fun p => 2 * p - 3) (fun _ => 7) in
  fst res = CUBLAS_STATUS_SUCCESS /\
  (forall i j, 0 <= i < uiHA ms -> 0 <= j < uiWB ms ->
     snd res (i * uiWB ms + j) =
     rowmajor_entry id id 0 Z.add Z.mul (fun p => p + 1) (fun p => 2 * p - 3)
       (uiWA ms) (uiWB ms) i j) /\
  (forall p, ~ (0 <= p < uiHA ms * uiWB ms) -> snd res p = 7) /\
  (uiHA ms * uiWA ms <= 2 ^ 32 -> uiWA ms * uiWB ms <= 2 ^ 32 ->
   uiHA ms * uiWB ms <= 2 ^ 32 ->
   forall p, snd res p =
     matrixMulCPU id id 0 Z.add Z.mul (fun _ => 7) (fun p => p + 1)
       (fun p => 2 * p - 3) (uiHA ms) (uiWA ms) (uiWB ms) p).
Proof.
  apply (invoke_sgemm_rowmajor_product 0 Z.add Z.mul (Z.eqb 0) 1 0
           Z.mul_comm Z.mul_1_l eq_refl).
  - split; [|cbn; lia].
    intros x Hx; cbn in Hx; intuition lia.
  - cbn; lia.
  - cbn; lia.
  - cbn; lia.
Defined.

(** C1 counterexample: the valid descriptor with width(A) = height(B) = 0
    and a 1 x 1 output.  The row-major product is the zero matrix, but
    the library rejects [ldb = 0 < max(1, k)]: the call returns
    [CUBLAS_STATUS_INVALID_VALUE] and [d_C] keeps its previous contents. *)
Lemma invoke_sgemm_empty_inner_counterexample :
  let ms := mkMatrixSize 0 1 1 0 1 1 in
  let res := invoke_sgemm 0 Z.add Z.mul (Z.eqb 0) ms 1 0
               (fun _ => 1) (fun _ => 1) (fun _ => 7) in
  valid_size ms /\
  fst res = CUBLAS_STATUS_INVALID_VALUE /\
  snd res (0 * uiWB ms + 0) <>
  rowmajor_entry id id 0 Z.add Z.mul (fun _ => 1) (fun _ => 1)
    (uiWA ms) (uiWB ms) 0 0.
Proof.
  split; [|split].
  - split; [|cbn; lia]. intros x Hx; cbn in Hx; intuition lia.
  - reflexivity.
  - vm_compute. discriminate.
Qed.

(** ** Power/clock controller *)

(** C6 (as amended): both transitions return [tt] whatever happens, and
    their effect is exactly the ordered, abort-on-first-failure,
    no-rollback sequence of their five steps (init, handle of device 0,
    power limit, application clocks, auto-boost), each failure printing
    its report with device index 0. *)
Theorem power_transitions_ordered (b : nvml_backend) (w : world) :
  undervolte b w = (tt, ordered_transition b undervolte_steps w) /\
  resetvolte b w = (tt, ordered_transition b resetvolte_steps w).
Proof.
  unfold undervolte, resetvolte, undervolte_steps, resetvolte_steps.
  cbn [ordered_transition].
  unfold nvml_call_in.
  split;
    repeat (match goal with |- context [b ?c ?g] =>
              destruct (b c g) as [[|?] ?] end; cbn); reflexivity.
Qed.

(** C6 counterexample: a backend whose power-limit call fails.  The
    transition stops after that call and prints its report, yet the
    caller receives the same value as from a transition that completed:
    there is no transition-failed outcome. *)
Lemma undervolte_failure_not_observable_counterexample :
  let w0 := mkWorld (mkGpu 38500 None true) [] [] in
  let b_fail : nvml_backend := fun c g =>
    match c with
    | NvmlDeviceSetPowerManagementLimit _ _ => (NVML_ERROR 3, g)
    | _ => nvml_ideal c g
    end in
  fst (undervolte b_fail w0) = fst (undervolte nvml_ideal w0) /\
  w_calls (snd (undervolte b_fail w0)) =
    [NvmlInit; NvmlDeviceGetHandleByIndex 0;
     NvmlDeviceSetPowerManagementLimit 0 30000] /\
  w_out (snd (undervolte b_fail w0)) =
    [Printf_device_error "Failed to set power limit of device %i: %s" 0
       (NVML_ERROR 3)] /\
  w_out (snd (undervolte nvml_ideal w0)) = [].
Proof. repeat split; reflexivity. Qed.

(** C7 (as amended): with every NVML call succeeding, a power-limit call
    setting the limit and no other call changing it, the transition to
    Constrained followed by the transition to Normal leaves the power
    limit at the fixed nominal value 38500 mW, whatever it was before. *)
Theorem power_roundtrip_limit (b : nvml_backend) (w : world) :
  (forall c g, fst (b c g) = NVML_SUCCESS) ->
  (forall d l g, power_limit (snd (b (NvmlDeviceSetPowerManagementLimit d l) g)) = l) ->
  (forall c g, (forall d l, c <> NvmlDeviceSetPowerManagementLimit d l) ->
               power_limit (snd (b c g)) = power_limit g) ->
  power_limit (w_gpu (snd (resetvolte b (snd (undervolte b w))))) = 38500.
Proof.
  intros Hok Hset Hkeep.
  destruct (power_transitions_ordered b (snd (undervolte b w))) as [_ Hr].
  rewrite Hr. unfold resetvolte_steps. cbn [ordered_transition].
  unfold nvml_call_in. cbn [w_gpu].
  set (g0 := w_gpu (snd (undervolte b w))). clearbody g0.
  pose proof (Hok NvmlInit g0) as O1.
  destruct (b NvmlInit g0) as [r1 g1] eqn:E1. cbn in O1. subst r1. cbn.
  pose proof (Hok (NvmlDeviceGetHandleByIndex 0) g1) as O2.
  destruct (b (NvmlDeviceGetHandleByIndex 0) g1) as [r2 g2] eqn:E2.
  cbn in O2. subst r2. cbn.
  pose proof (Hok (NvmlDeviceSetPowerManagementLimit 0 38500) g2) as O3.
  pose proof (Hset 0 38500 g2) as S3.
  destruct (b (NvmlDeviceSetPowerManagementLimit 0 38500) g2) as [r3 g3] eqn:E3.
  cbn in O3, S3. subst r3. cbn.
  pose proof (Hok (NvmlDeviceResetApplicationsClocks 0) g3) as O4.
  pose proof (Hkeep (NvmlDeviceResetApplicationsClocks 0) g3
                ltac:(discriminate)) as K4.
  destruct (b (NvmlDeviceResetApplicationsClocks 0) g3) as [r4 g4] eqn:E4.
  cbn in O4, K4. subst r4. cbn.
  pose proof (Hok (NvmlDeviceSetAutoBoostedClocksEnabled 0 true) g4) as O5.
  pose proof (Hkeep (NvmlDeviceSetAutoBoostedClocksEnabled 0 true) g4
                ltac:(discriminate)) as K5.
  destruct (b (NvmlDeviceSetAutoBoostedClocksEnabled 0 true) g4) as [r5 g5] eqn:E5.
  cbn in O5, K5. subst r5. cbn.
  congruence.
Qed.

Lemma power_roundtrip_limit_witness :
  power_limit (w_gpu (snd (resetvolte nvml_ideal
                             (snd (undervolte nvml_ideal
                                     (mkWorld (mkGpu 25000 None true) [] [])))))) =
  38500.
Proof.
  apply power_roundtrip_limit.
  - intros c g; reflexivity.
  - intros d l g; reflexivity.
  - intros c g H; destruct c; try reflexivity.
    exfalso; eapply H; reflexivity.
Defined.

(** C7 counterexample: starting from a power limit of 25000 mW, the round
    trip through both transitions (all calls succeeding) ends at 38500 mW,
    not at the value held before. *)
Lemma power_roundtrip_counterexample :
  let w0 := mkWorld (mkGpu 25000 None true) [] [] in
  power_limit (w_gpu (snd (resetvolte nvml_ideal (snd (undervolte nvml_ideal w0)))))
  <> power_limit (w_gpu w0).
Proof. cbn. discriminate. Qed.

(** Sample evaluations of the float model: the [float] conversion of
    RAND_MAX rounds up to 2^31, 2^-24 is absorbed by 1 in [float] but not
    in [double], and a nonzero quotient by zero is an infinity. *)
Lemma float_model_examples :
  of_int binary32 2147483647 = Fin (2147483648 # 1) /\
  fdiv binary32 (of_int binary32 2147483647) (of_int binary32 2147483647) = Fin 1 /\
  fadd binary32 (Fin 1) (Fin (1 # 16777216)) = Fin 1 /\
  fadd binary64 (Fin 1) (Fin (1 # 16777216)) = Fin (16777217 # 16777216) /\
  fsqrt binary32 (Fin 4) = Fin 2 /\
  fdiv binary64 (Fin 1) (Fin 0) = Inf false.
Proof. vm_compute. repeat split; reflexivity. Qed.

(** ** The rounding of the float model *)
Section Rounding.

Lemma pow2_inject (j : Z) : 0 <= j -> (pow2 j == inject_Z (2 ^ j))%Q.
Proof. intro Hj. unfold pow2. rewrite Zpower_Qpower by exact Hj. reflexivity. Qed.

Lemma pow2_nonneg (j : Z) : (0 <= pow2 j)%Q.
Proof. unfold pow2. apply Qpower_0_le. discriminate. Qed.

Lemma pow2_plus (a b : Z) : (pow2 (a + b) == pow2 a * pow2 b)%Q.
Proof. unfold pow2. apply Qpower_plus. discriminate. Qed.

Lemma pow2_lt (a b : Z) : a < b -> (pow2 a < pow2 b)%Q.
Proof. intro H. unfold pow2. apply Qpower_lt_compat_l; [exact H | reflexivity]. Qed.

Lemma rne_le_int (y : Q) (n : Z) : (y <= inject_Z n)%Q -> rne y <= n.
Proof.
  intro Hy. unfold rne.
  pose proof (Qfloor_le y) as Hf.
  assert (Hfn : Qfloor y <= n).
  { rewrite Zle_Qle. apply (Qle_trans _ _ _ Hf Hy). }
  destruct (Z.eq_dec (Qfloor y) n) as [Heq | Hne].
  - assert (Hlt : (y - inject_Z (Qfloor y) < 1 # 2)%Q).
    { rewrite Heq. lra. }
    rewrite (proj1 (Qlt_alt _ _) Hlt). lia.
  - destruct (y - inject_Z (Qfloor y) ?= 1 # 2)%Q;
      [destruct (Z.even (Qfloor y)) | |]; lia.
Qed.

Lemma rne_nonneg (y : Q) : (0 <= y)%Q -> 0 <= rne y.
Proof.
  intro Hy. unfold rne.
  assert (H0 : 0 <= Qfloor y).
  { change 0 with (Qfloor 0). apply Qfloor_resp_le. exact Hy. }
  destruct (y - inject_Z (Qfloor y) ?= 1 # 2)%Q;
    [destruct (Z.even (Qfloor y)) | |]; lia.
Qed.

Lemma flog2_le (x : Q) (j : Z) :
  (0 < x)%Q -> 0 <= j -> (x <= pow2 j)%Q -> flog2 x <= j.
Proof.
  intros Hx Hj Hle. rewrite (pow2_inject j Hj) in Hle.
  destruct x as [n d]. unfold Qlt, Qle in *; cbn in *.
  assert (Hn : 0 < n) by lia.
  assert (Hd : Z.log2 n <= j + Z.log2 (Z.pos d)).
  { rewrite <- Z.log2_mul_pow2 by lia.
    apply Z.log2_le_mono. nia. }
  unfold flog2. change (Qnum (n # d)) with n. change (Qden (n # d)) with d.
  destruct (Qle_bool _ _); lia.
Qed.

(** A nonnegative value at most [2^j], with [j] a nonnegative exponent
    in the format's range, rounds to a finite value in [[0, 2^j]]. *)
Lemma round_bound (f : fformat) (x : Q) (j : Z) :
  1 <= prec f -> emin f <= j -> 0 <= j <= emax f ->
  (0 <= x)%Q -> (x <= pow2 j)%Q ->
  exists q, round f x = Fin q /\ (0 <= q)%Q /\ (q <= pow2 j)%Q.
Proof.
  intros Hp Hmin Hj Hx0 Hxj. unfold round.
  destruct (Qeq_bool x 0) eqn:Hz.
  { exists 0%Q. split; [reflexivity | split; [apply Qle_refl | apply pow2_nonneg]]. }
  apply Qeq_bool_neq in Hz.
  assert (Hxpos : (0 < x)%Q).
  { apply Qle_lteq in Hx0 as [H | H]; [exact H | exfalso; apply Hz; symmetry; exact H]. }
  assert (Ha : (Qabs x == x)%Q) by (apply Qabs_pos; exact Hx0).
  assert (Hlog : flog2 (Qabs x) <= j).
  { apply flog2_le; [rewrite Ha; exact Hxpos | lia | rewrite Ha; exact Hxj]. }
  set (e := Z.max (emin f) (flog2 (Qabs x) - (prec f - 1))).
  assert (He : e <= j) by (unfold e; lia).
  assert (Hy : (Qabs x * pow2 (- e) <= inject_Z (2 ^ (j - e)))%Q).
  { rewrite <- pow2_inject by lia. rewrite Ha.
    replace (j - e) with (j + - e) by lia. rewrite pow2_plus.
    apply Qmult_le_compat_r; [exact Hxj | apply pow2_nonneg]. }
  assert (Hy0 : (0 <= Qabs x * pow2 (- e))%Q).
  { rewrite Ha. apply Qmult_le_0_compat; [exact Hx0 | apply pow2_nonneg]. }
  pose proof (rne_le_int _ _ Hy) as Hm1.
  pose proof (rne_nonneg _ Hy0) as Hm0.
  set (m := rne (Qabs x * pow2 (- e))) in *.
  assert (Hv0 : (0 <= Qred (inject_Z m * pow2 e))%Q).
  { rewrite Qred_correct. apply Qmult_le_0_compat; [| apply pow2_nonneg].
    change 0%Q with (inject_Z 0). rewrite <- Zle_Qle. exact Hm0. }
  assert (Hv1 : (Qred (inject_Z m * pow2 e) <= pow2 j)%Q).
  { rewrite Qred_correct.
    apply Qle_trans with (inject_Z (2 ^ (j - e)) * pow2 e)%Q.
    - apply Qmult_le_compat_r; [rewrite <- Zle_Qle; exact Hm1 | apply pow2_nonneg].
    - rewrite <- pow2_inject by lia. rewrite <- pow2_plus.
      replace (j - e + e) with j by lia. apply Qle_refl. }
  assert (Hinf : Qle_bool (pow2 (emax f + 1)) (Qred (inject_Z m * pow2 e)) = false).
  { apply not_true_iff_false. rewrite Qle_bool_iff. intro H.
    pose proof (pow2_lt j (emax f + 1) ltac:(lia)) as Hlt.
    apply (Qlt_irrefl (pow2 j)).
    apply Qlt_le_trans with (pow2 (emax f + 1)); [exact Hlt |].
    apply Qle_trans with (Qred (inject_Z m * pow2 e)); assumption. }
  rewrite Hinf.
  assert (Hneg : Qltb x 0 = false).
  { unfold Qltb. apply Qle_bool_iff in Hx0. rewrite Hx0. reflexivity. }
  rewrite Hneg.
  exists (Qred (inject_Z m * pow2 e)). auto.
Qed.

End Rounding.

(** ** randomInit *)
Section RandomInit.

Lemma of_int_RAND_MAX : of_int binary32 RAND_MAX = Fin (2147483648 # 1).
Proof. vm_compute. reflexivity. Qed.

Lemma randomInit_elem_bound (r : Z) : 0 <= r <= RAND_MAX ->
  exists q, fdiv binary32 (of_int binary32 r) (of_int binary32 RAND_MAX) = Fin q
            /\ (0 <= q <= 1)%Q.
Proof.
  intro Hr. unfold RAND_MAX in Hr.
  destruct (round_bound binary32 (inject_Z r) 31) as [q0 [Hq0 [H0 H1]]].
  - cbn. lia.
  - cbn. lia.
  - cbn. lia.
  - change 0%Q with (inject_Z 0). rewrite <- Zle_Qle. lia.
  - rewrite pow2_inject by lia. rewrite <- Zle_Qle. lia.
  - rewrite of_int_RAND_MAX. unfold of_int at 1. rewrite Hq0.
    unfold fdiv. change (Qeq_bool (2147483648 # 1) 0) with false. cbv beta iota.
    rewrite pow2_inject in H1 by lia.
    change (inject_Z (2 ^ 31)) with (2147483648 # 1)%Q in H1.
    destruct (round_bound binary32 (q0 / (2147483648 # 1)) 0) as [q [Hq [H2 H3]]].
    + cbn. lia.
    + cbn. lia.
    + cbn. lia.
    + apply Qle_shift_div_l; [reflexivity | lra].
    + apply Qle_shift_div_r; [reflexivity |]. change (pow2 0) with 1%Q. lra.
    + exists q. split; [exact Hq | split; [exact H2 | exact H3]].
Qed.

Lemma randomInit_loop_outside (rand : nat -> Z) (calls : nat) (data : Z -> fl)
    (i : Z) (fuel : nat) (p : Z) :
  p < i -> fst (randomInit_loop rand calls data i fuel) p = data p.
Proof.
  revert calls data i. induction fuel as [| fuel IH]; intros calls data i Hp.
  - reflexivity.
  - cbn [randomInit_loop]. rewrite IH by lia. unfold upd.
    rewrite (proj2 (Z.eqb_neq p i)) by lia. reflexivity.
Qed.

Lemma randomInit_loop_inside (P : fl -> Prop) (rand : nat -> Z)
    (HP : forall k, P (fdiv binary32 (of_int binary32 (rand k))
                                     (of_int binary32 RAND_MAX)))
    (calls : nat) (data : Z -> fl) (i : Z) (fuel : nat) (p : Z) :
  i <= p < i + Z.of_nat fuel -> P (fst (randomInit_loop rand calls data i fuel) p).
Proof.
  revert calls data i. induction fuel as [| fuel IH]; intros calls data i Hp.
  - lia.
  - cbn [randomInit_loop]. destruct (Z.eq_dec p i) as [-> | Hne].
    + rewrite randomInit_loop_outside by lia. unfold upd. rewrite Z.eqb_refl.
      apply HP.
    + apply IH. lia.
Qed.

End RandomInit.

(** C9 (amended): for every generator stream whose outputs lie in
    [[0, RAND_MAX]] (as [rand()] guarantees, whatever the seed), every
    element that randomInit writes is a finite float in the closed
    interval [[0, 1]]. *)
Theorem randomInit_unit_interval (rand : nat -> Z) (calls : nat)
    (data : Z -> fl) (size i : Z) :
  (forall k, 0 <= rand k <= RAND_MAX) -> 0 <= i < size ->
  exists q, fst (randomInit rand calls data size) i = Fin q /\ (0 <= q <= 1)%Q.
Proof.
  intros Hr Hi. unfold randomInit.
  apply (randomInit_loop_inside
           (fun v => exists q, v = Fin q /\ (0 <= q <= 1)%Q)).
  - intro k. apply randomInit_elem_bound, Hr.
  - lia.
Qed.

Lemma randomInit_unit_interval_witness :
  (forall k : nat, 0 <= (fun _ : nat => 0) k <= RAND_MAX) /\ 0 <= 1 < 2 /\
  exists q, fst (randomInit (fun _ => 0) 0 (fun _ => NaN) 2) 1 = Fin q
            /\ (0 <= q <= 1)%Q.
Proof.
  split; [intro k; unfold RAND_MAX; lia |]. split; [lia |].
  apply randomInit_unit_interval; [intro k; unfold RAND_MAX; lia | lia].
Defined.

(** C9 counterexample: the generator output 2147483584, below RAND_MAX,
    converts to the float 2^31 (the nearest float, ties to even), equal to
    [(float)RAND_MAX], so randomInit writes exactly 1.0. *)
Lemma randomInit_one_counterexample :
  0 <= 2147483584 < RAND_MAX /\
  fst (randomInit (fun _ => 2147483584) 0 (fun _ => NaN) 1) 0 = Fin 1.
Proof. split; [unfold RAND_MAX; lia | vm_compute; reflexivity]. Qed.

(** ** sdkCompareL2fe *)
Lemma l2_loop_zero_reference (reference data : Z -> fl) (i : Z) (fuel : nat)
    (error : fl) :
  (forall p, i <= p < i + Z.of_nat fuel -> reference p = Fin 0) ->
  snd (l2_loop reference data i fuel error (Fin 0)) = Fin 0.
Proof.
  revert i error. induction fuel as [| fuel IH]; intros i error Hz.
  - reflexivity.
  - cbn [l2_loop]. rewrite (Hz i) by lia.
    change (fadd binary32 (Fin 0) (fmul binary32 (Fin 0) (Fin 0))) with (Fin 0).
    apply IH. intros p Hp. apply Hz. lia.
Qed.

(** C5 (amended): when the reference buffer is all zero on the compared
    length, sdkCompareL2fe first checks [assert(epsilon >= 0)]: a negative
    or NaN tolerance aborts the process ([None]).  Any other tolerance gives
    false (fail) for every candidate buffer, an all-zero one included: the
    early [fabs(ref) < 1e-7] exit is taken, so the zero norm is never a
    divisor, and no error distinct from an ordinary failed comparison is
    reported. *)
Theorem sdkCompareL2fe_zero_reference (reference data : Z -> fl) (len : Z)
    (epsilon : fl) :
  (forall p, 0 <= p < len -> reference p = Fin 0) ->
  sdkCompareL2fe reference data len epsilon =
  if fle (Fin 0) epsilon then Some false else None.
Proof.
  intro Hz. unfold sdkCompareL2fe.
  destruct (fle (Fin 0) epsilon); [f_equal | reflexivity].
  unfold sdkCompareL2fe_result.
  pose proof (l2_loop_zero_reference reference data 0 (Z.to_nat len) (Fin 0))
    as Hr.
  destruct (l2_loop reference data 0 (Z.to_nat len) (Fin 0) (Fin 0))
    as [error ref] eqn:E.
  cbn [snd] in Hr. rewrite Hr by (intros p Hp; apply Hz; lia).
  change (flt (fabs (Fin 0)) (lit_double (1 # 10000000))) with true.
  reflexivity.
Qed.

Lemma sdkCompareL2fe_zero_reference_witness :
  (forall p, 0 <= p < 2 -> (fun _ : Z => Fin 0) p = Fin 0) /\
  sdkCompareL2fe (fun _ => Fin 0) (fun _ => Fin 1) 2 (lit_float (Qmake (-1) 1000)) =
  (if fle (Fin 0) (lit_float (Qmake (-1) 1000)) then Some false else None).
Proof.
  split; [intros p Hp; reflexivity |].
  apply sdkCompareL2fe_zero_reference. intros p Hp. reflexivity.
Defined.

(** C5 counterexample: an all-zero reference compared with an all-zero
    candidate at the benchmark's tolerance 1.0e-10f fails, so the
    comparator does not pass iff the candidate is all zero; and its only
    outcome there is the boolean, so no distinct error is raised. *)
Lemma sdkCompareL2fe_zero_counterexample :
  (forall p, (fun _ : Z => Fin 0) p = Fin 0) /\
  sdkCompareL2fe (fun _ => Fin 0) (fun _ => Fin 0) 4
    (lit_float (1 # 10000000000)) = Some false.
Proof. split; [intro p; reflexivity | vm_compute; reflexivity]. Qed.

(** ** The host program *)
Section DriverProofs.

Variable env : environment.

(** [wp m Q E s]: started in [s], [m] ends normally in a state satisfying
    [Q] or exits in a state satisfying [E]. *)
Definition wp {A} (m : M A) (Q : A -> state -> Prop) (E : state -> Prop)
    (s : state) : Prop :=
  match m s with Done a s' => Q a s' | Exit s' => E s' end.

Lemma wp_bind {A B} (m : M A) (k : A -> M B) Q E s :
  wp m (fun a s' => wp (k a) Q E s') E s -> wp (bind m k) Q E s.
Proof. unfold wp, bind. destruct (m s); auto. Qed.

Lemma wp_ret {A} (a : A) Q E s : Q a s -> wp (ret a) Q E s.
Proof. auto. Qed.

Lemma wp_modify f Q E s : Q tt (f s) -> wp (modify f) Q E s.
Proof. auto. Qed.

Lemma wp_get Q E s : Q s s -> wp get Q E s.
Proof. auto. Qed.

Lemma wp_checked f Q E s :
  (env_ok env (ncalls s) = true -> Q tt (f (incr_calls s))) ->
  (env_ok env (ncalls s) = false -> E (incr_calls s)) ->
  wp (checked env f) Q E s.
Proof. unfold wp, checked. destruct (env_ok env (ncalls s)); auto. Qed.

Lemma wp_elapsed Q E s :
  (env_ok env (ncalls s) = true ->
   Q (env_time env (ntime s))
     (mkState (S (ncalls s)) (nsgemm s) (S (ntime s)) (live s) (mem s) (trace s))) ->
  (env_ok env (ncalls s) = false -> E (incr_calls s)) ->
  wp (cudaEventElapsedTime env) Q E s.
Proof. unfold wp, cudaEventElapsedTime. destruct (env_ok env (ncalls s)); auto. Qed.

Lemma wp_conseq {A} (m : M A) (Q Q' : A -> state -> Prop) (E E' : state -> Prop) s :
  wp m Q E s -> (forall a s', Q a s' -> Q' a s') -> (forall s', E s' -> E' s') ->
  wp m Q' E' s.
Proof. unfold wp. destruct (m s); auto. Qed.

Lemma trials_S fuel j fail_count total_perf :
  trials env (S fuel) j fail_count total_perf =
  (let* _ := cudaEventRecord env in
   let* _ := cublasSgemm_call env R_d_C in
   let* _ := cudaEventRecord env in
   let* _ := cudaEventSynchronize env in
   let* msecTotal := cudaEventElapsedTime env in
   let gigaFlops := gigaFlops_of matrix_size msecTotal in
   let* _ := printf (Perf (Some j) gigaFlops msecTotal) in
   let total_perf' := accumulate_perf total_perf gigaFlops in
   let* _ := cudaMemcpy env R_h_C R_d_C in
   let* s := get in
   let* resCUBLAS := abort_on_none
                       (sdkCompareL2fe (mem s R_h_C2) (mem s R_h_C) size_C
                          (lit_float (1 # 10000000000))) in
   let* fail_count' :=
     if resCUBLAS then ret fail_count
     else let* _ := printf (PrintDiff (mem s R_h_C2) (mem s R_h_C)) in
          ret (fail_count + 1) in
   let* _ := printf (Compare (mem s R_h_C2) (mem s R_h_C) resCUBLAS) in
   trials env fuel (j + 1) fail_count' total_perf').
Proof. reflexivity. Qed.

End DriverProofs.

Lemma count_fails_app (l1 l2 : list event) :
  count_fails (l1 ++ l2) = count_fails l1 + count_fails l2.
Proof.
  induction l1 as [| e l1 IH]; [reflexivity |].
  destruct e as [| | ? ? [|] |]; cbn [count_fails app]; rewrite ?IH; lia.
Qed.

Lemma count_compares_app (l1 l2 : list event) :
  count_compares (l1 ++ l2) = count_compares l1 + count_compares l2.
Proof.
  induction l1 as [| e l1 IH]; [reflexivity |].
  destruct e; cbn [count_compares app]; rewrite ?IH; lia.
Qed.

Lemma perf_total_app (acc : fl) (l1 l2 : list event) :
  perf_total acc (l1 ++ l2) = perf_total (perf_total acc l1) l2.
Proof.
  revert acc. induction l1 as [| e l1 IH]; intro acc; [reflexivity |].
  destruct e as [[?|] ? ?| | |]; cbn [perf_total app]; apply IH.
Qed.

Ltac st_red :=
  cbn [incr_calls store log acquire release init_inputs ncalls nsgemm ntime live mem trace
       set_mem resource_beq fst snd].

(** The tolerance [1.0e-10f] passes the comparator's assert. *)
Lemma sdkCompareL2fe_driver_tolerance (reference data : Z -> fl) (len : Z) :
  sdkCompareL2fe reference data len (lit_float (1 # 10000000000)) =
  Some (sdkCompareL2fe_result reference data len (lit_float (1 # 10000000000))).
Proof.
  unfold sdkCompareL2fe.
  replace (fle (Fin 0) (lit_float (1 # 10000000000))) with true
    by (vm_compute; reflexivity).
  reflexivity.
Qed.

Lemma wp_compare (reference data : Z -> fl) (len : Z) (Q : bool -> state -> Prop)
    (E : state -> Prop) (s : state) :
  Q (sdkCompareL2fe_result reference data len (lit_float (1 # 10000000000))) s ->
  wp (abort_on_none (sdkCompareL2fe reference data len (lit_float (1 # 10000000000))))
     Q E s.
Proof. intro H. unfold wp. rewrite sdkCompareL2fe_driver_tolerance. exact H. Qed.

Ltac wp_run :=
  repeat (st_red;
    match goal with
    | |- wp (bind _ _) _ _ _ => apply wp_bind
    | |- wp (ret _) _ _ _ => apply wp_ret
    | |- wp (modify _) _ _ _ => apply wp_modify
    | |- wp (printf _) _ _ _ => apply wp_modify
    | |- wp (malloc _ _) _ _ _ => apply wp_modify
    | |- wp (free _) _ _ _ => apply wp_modify
    | |- wp get _ _ _ => apply wp_get
    | |- wp (abort_on_none _) _ _ _ => apply wp_compare
    | |- wp (cudaEventElapsedTime _) _ _ _ => apply wp_elapsed; intro
    | |- wp (checked _ _) _ _ _ => apply wp_checked; intro
    | |- wp (cudaEventRecord _) _ _ _ => apply wp_checked; intro
    | |- wp (cudaEventSynchronize _) _ _ _ => apply wp_checked; intro
    | |- wp (cublasSgemm_call _ _) _ _ _ => apply wp_checked; intro
    | |- wp (cudaMemcpy _ _ _) _ _ _ => apply wp_checked; intro
    | |- wp (cudaMalloc _ _) _ _ _ => apply wp_checked; intro
    | |- wp (cudaFree _ _) _ _ _ => apply wp_checked; intro
    | |- wp (cudaEventCreate _ _) _ _ _ => apply wp_checked; intro
    | |- wp (cublasCreate _) _ _ _ => apply wp_checked; intro
    | |- wp (cublasDestroy _) _ _ _ => apply wp_checked; intro
    end).

Ltac in_cases H :=
  repeat (rewrite in_app_iff in H);
  cbn [In] in H;
  repeat (destruct H as [H | H]);
  try contradiction; try discriminate H.

Section TrialsProofs.

Variable env : environment.

Definition trials_frame (s s' : state) : Prop :=
  live s' = live s /\ mem s' R_h_C2 = mem s R_h_C2.

Definition compare_ok (s : state) (e : event) : Prop :=
  match e with Compare ref _ _ => ref = mem s R_h_C2 | _ => True end.

Definition perf_ok (e : event) : Prop :=
  match e with
  | Perf _ g m => g = gigaFlops_of matrix_size m /\ exists k, m = env_time env k
  | _ => True
  end.

Definition trials_events (s : state) (new : list event) : Prop :=
  Forall (compare_ok s) new /\ Forall perf_ok new.

Definition trials_exit (s : state) (s' : state) : Prop :=
  trials_frame s s' /\ exists new, trace s' = trace s ++ new /\ trials_events s new.

Definition trials_post (s : state) (fc : Z) (tp : fl) (fuel : nat)
    (a : Z * fl) (s' : state) : Prop :=
  trials_frame s s' /\
  exists new, trace s' = trace s ++ new /\ trials_events s new /\
    fst a = fc + count_fails new /\ snd a = perf_total tp new /\
    count_compares new = Z.of_nat fuel.

Ltac ev_tac :=
  split; rewrite ?Forall_app; repeat match goal with |- _ /\ _ => split end;
  repeat (first [apply Forall_cons | apply Forall_nil]);
  cbn [compare_ok perf_ok];
  try exact I; try reflexivity;
  try (split; [reflexivity | eexists; reflexivity]).

Lemma trials_exit_nil (s s' : state) :
  live s' = live s -> mem s' R_h_C2 = mem s R_h_C2 -> trace s' = trace s ->
  trials_exit s s'.
Proof.
  intros H1 H2 H3. split; [split; assumption |].
  exists []. rewrite app_nil_r. split; [exact H3 |].
  split; constructor.
Qed.

Lemma trials_spec (fuel : nat) : forall j fc tp s,
  wp (trials env fuel j fc tp) (trials_post s fc tp fuel) (trials_exit s) s.
Proof.
  induction fuel as [| fuel IH]; intros j fc tp s.
  - apply wp_ret. split; [split; reflexivity |].
    exists []. rewrite app_nil_r. split; [reflexivity |].
    split; [split; constructor |].
    cbn [fst snd count_fails perf_total count_compares Z.of_nat]. repeat split; lia.
  - rewrite trials_S.
    wp_run.
    all: try (match goal with |- trials_exit _ _ => idtac end;
              first [ apply trials_exit_nil; reflexivity
                    | split; [split; reflexivity |];
                      eexists; split; [st_red; reflexivity |]; ev_tac ]).
    destruct (sdkCompareL2fe_result _ _ _ _); wp_run;
      (eapply wp_conseq;
       [ apply IH
       | intros a s' [[Hl Hm] [new [Ht [[Hev1 Hev2] [Ha [Hb Hn]]]]]]
       | intros s' [[Hl Hm] [new [Ht [Hev1 Hev2]]]] ]);
      (split; [split; [rewrite Hl; reflexivity | rewrite Hm; reflexivity] |]);
      (eexists; split; [rewrite Ht; st_red; rewrite <- ?app_assoc; reflexivity |]).
    all: try (match goal with |- trials_events _ _ => idtac end;
              ev_tac; [exact Hev1 | exact Hev2]).
    all: split; [ev_tac; [exact Hev1 | exact Hev2] |].
    all: rewrite !count_fails_app, !count_compares_app, !perf_total_app;
         cbn [count_fails count_compares perf_total].
    all: split; [rewrite Ha; lia | split; [rewrite Hb; reflexivity | lia]].
Qed.

End TrialsProofs.

Ltac in_tac :=
  vm_compute; repeat (first [left; reflexivity | right]).

Section RunProofs.

Variable env : environment.

Definition compare_first (e : event) : Prop :=
  match e with Compare ref _ _ => ref = first_sgemm_result env | _ => True end.

Definition host_live (s : state) : Prop :=
  In R_h_A (live s) /\ In R_h_B (live s) /\ In R_h_C (live s) /\ In R_h_C2 (live s).

(** What an aborted run leaves behind. *)
Definition run_exit (s : state) : Prop :=
  (host_live s \/ In R_d_C2 (live s)) /\
  Forall compare_first (trace s) /\ Forall (perf_ok env) (trace s).

(** What a completed run leaves behind. *)
Definition run_post (r : Z) (s : state) : Prop :=
  r = 0 /\ live s = [R_stop; R_start] /\
  exists g0 m0 new,
    trace s = Perf None g0 m0 ::
              new ++ [Report nIter (count_fails new)
                        (failure_rate (count_fails new) nIter)
                        (average_perf (perf_total (Fin 0) new) nIter)] /\
    Forall compare_first new /\ Forall (perf_ok env) (Perf None g0 m0 :: new) /\
    count_compares new = nIter.

Ltac tr_tac :=
  repeat (first [apply Forall_cons | apply Forall_nil]);
  cbn [compare_first perf_ok]; try exact I;
  try (split; [reflexivity | eexists; reflexivity]).

Ltac ev_run Hev1 Hev2 :=
  rewrite ?Forall_app; repeat match goal with |- _ /\ _ => split end;
  try exact Hev2;
  try (eapply Forall_impl; [| exact Hev1]; intros [] He; try exact I; exact He);
  tr_tac.

Lemma run_spec : wp (matrixMultiply env) run_post run_exit (init_state env).
Proof.
  unfold matrixMultiply, matrixMultiply_setup, matrixMultiply_baseline,
    matrixMultiply_report, matrixMultiply_cleanup, init_state.
  wp_run.
  all: try (match goal with |- run_exit _ => idtac end;
            unfold run_exit, host_live; st_red;
            split; [left; repeat split; in_tac | split; tr_tac]).
  eapply wp_conseq;
    [ apply trials_spec
    | intros a s' [[Hl Hm] [new [Ht [[Hev1 Hev2] [Ha [Hb Hn]]]]]]
    | intros s' [[Hl Hm] [new [Ht [Hev1 Hev2]]]] ].
  - wp_run.
    all: try (match goal with |- run_exit _ => idtac end;
              unfold run_exit, host_live; st_red; rewrite ?Hl, ?Ht; st_red;
              split; [first [solve [left; repeat split; in_tac] | solve [right; in_tac]]
                     | ev_run Hev1 Hev2 ]).
    unfold run_post; st_red; rewrite Hl.
    split; [reflexivity | split; [reflexivity |]].
    rewrite Ht, Ha, Hb; cbn [fst snd]; rewrite Z.add_0_l.
    do 3 eexists; split; [st_red; cbn [app]; reflexivity |].
    split; [eapply Forall_impl; [| exact Hev1]; intros [] He; try exact I; exact He |].
    split; [apply Forall_cons; [split; [reflexivity | eexists; reflexivity] | exact Hev2] |].
    rewrite Hn; reflexivity.
  - unfold run_exit, host_live; rewrite Hl, Ht; st_red.
    split; [left; repeat split; in_tac | ev_run Hev1 Hev2].
Qed.

End RunProofs.

Lemma wp_and {A} (m : M A) (Q1 Q2 : A -> state -> Prop) (E1 E2 : state -> Prop) s :
  wp m Q1 E1 s -> wp m Q2 E2 s ->
  wp m (fun a s' => Q1 a s' /\ Q2 a s') (fun s' => E1 s' /\ E2 s') s.
Proof. unfold wp. destruct (m s); auto. Qed.

Section RunCompletes.

Variable env : environment.
Hypothesis Hok : forall k, env_ok env k = true.

Ltac no_exit :=
  match goal with H : env_ok _ _ = false |- _ => rewrite Hok in H; discriminate H end.

Lemma trials_done (fuel : nat) : forall j fc tp s,
  wp (trials env fuel j fc tp) (fun _ _ => True) (fun _ => False) s.
Proof.
  induction fuel as [| fuel IH]; intros j fc tp s.
  - apply wp_ret. exact I.
  - rewrite trials_S. wp_run; try no_exit.
    destruct (sdkCompareL2fe_result _ _ _ _); wp_run; apply IH.
Qed.

Lemma run_done :
  wp (matrixMultiply env) (fun _ _ => True) (fun _ => False) (init_state env).
Proof.
  unfold matrixMultiply, matrixMultiply_setup, matrixMultiply_baseline,
    matrixMultiply_report, matrixMultiply_cleanup, init_state.
  wp_run; try no_exit.
  eapply wp_conseq; [apply trials_done | intros a s' _ | intros s' []].
  wp_run; try no_exit. exact I.
Qed.

End RunCompletes.

(** [1e-9f * flops / (0.0f / 1000.0f)] is [+inf]. *)
Lemma gigaFlops_zero : gigaFlops_of matrix_size (Fin 0) = Inf false.
Proof. vm_compute. reflexivity. Qed.

(** C3: in every run, every comparison the trial loop prints is made
    against the first product the device computed ([cublasSgemm] call 0,
    on the initial [h_A] and [h_B], copied into [h_C2]); the reference is
    never the CPU routine's result, which the run does not compute. *)
Theorem compare_reference_is_first_sgemm (env : environment) :
  Forall (fun e => match e with
                   | Compare ref _ _ => ref = first_sgemm_result env
                   | _ => True end)
         (trace (final_state (run env))).
Proof.
  pose proof (run_spec env) as H. unfold wp in H. unfold run.
  destruct (matrixMultiply env (init_state env)) as [r s | s]; cbn [final_state].
  - destruct H as [_ [_ [g0 [m0 [new [Htr [Hcf _]]]]]]].
    rewrite Htr. apply Forall_cons; [exact I |].
    apply Forall_app; split; [exact Hcf |].
    apply Forall_cons; [exact I | apply Forall_nil].
  - exact (proj1 (proj2 H)).
Qed.

(** C4 (as amended): when the run completes, its report line carries the
    number F of failing comparisons of the trace (one per failing trial,
    100 comparisons in all), the rate [failure_rate F 100] (the [float]
    quotient of [(float)F] by 100) and [average_perf tp 100], where [tp]
    is the [float] accumulator to which each trial's throughput was added
    in [double] and narrowed back to [float]. *)
Theorem report_statistics (env : environment) :
  match run env with
  | Done _ s =>
      exists F tp,
        In (Report nIter F (failure_rate F nIter) (average_perf tp nIter)) (trace s) /\
        F = count_fails (trace s) /\ tp = perf_total (Fin 0) (trace s) /\
        count_compares (trace s) = nIter
  | Exit _ => True
  end.
Proof.
  pose proof (run_spec env) as H. unfold wp in H. unfold run.
  destruct (matrixMultiply env (init_state env)) as [r s | s]; [| exact I].
  destruct H as [_ [_ [g0 [m0 [new [Htr [_ [_ Hn]]]]]]]].
  exists (count_fails new), (perf_total (Fin 0) new). rewrite Htr.
  split; [apply in_cons, in_or_app; right; left; reflexivity |].
  cbn [count_fails count_compares perf_total].
  rewrite count_fails_app, count_compares_app, perf_total_app.
  cbn [count_fails count_compares perf_total].
  split; [lia | split; [reflexivity | rewrite Hn; reflexivity]].
Qed.

(** C4 counterexample: with one failing trial the reported rate is the
    [float] nearest to 1/100, which is not 1/100; and the [float]
    accumulator does not hold the exact sum: adding a throughput of 1 to
    an accumulated 2^24 leaves 2^24. *)
Lemma report_statistics_counterexample :
  (exists q, failure_rate 1 nIter = Fin q /\ ~ (q == 1 # 100)%Q) /\
  (exists q, accumulate_perf (Fin 16777216) (Fin 1) = Fin q /\ (q == 16777216)%Q).
Proof.
  split; eexists; split; try (vm_compute; reflexivity); vm_compute; discriminate.
Qed.

(** C8 (code bug): when every checked call succeeds the run returns 0
    and releases the four host buffers ([free], lines 405-408), the four
    device buffers ([cudaFree], lines 409-412) and the cuBLAS handle
    ([cublasDestroy], line 396), but the events [start] and [stop] created
    at lines 279-280 are never passed to [cudaEventDestroy]: they are the
    resources still live at the end of the run. *)
Theorem run_completion_keeps_events (env : environment)
    (Hok : forall k, env_ok env k = true) :
  exists s, run env = Done 0 s /\ live s = [R_stop; R_start].
Proof.
  pose proof (wp_and _ _ _ _ _ _ (run_spec env) (run_done env Hok)) as H.
  unfold wp in H. unfold run.
  destruct (matrixMultiply env (init_state env)) as [r s | s];
    [| destruct H as [_ []]].
  destruct H as [[Hr [Hl _]] _]. subst r.
  exists s. split; [reflexivity | exact Hl].
Qed.

Lemma run_completion_keeps_events_witness :
  (forall k, env_ok env_zero_time k = true) /\
  exists s, run env_zero_time = Done 0 s /\ live s = [R_stop; R_start].
Proof.
  split; [intro k; reflexivity |].
  apply run_completion_keeps_events. intro k. reflexivity.
Defined.

(** C10: when every call succeeds and every measured time is 0 ms, the
    run still completes normally: each performance line, the baseline's
    included, is printed with the quotient [gigaFlops_of matrix_size 0],
    which is [+inf], and all 100 trials are compared; no branch tests the
    elapsed time. *)
Theorem zero_elapsed_time_divides (env : environment)
    (Hok : forall k, env_ok env k = true)
    (Ht : forall k, env_time env k = Fin 0) :
  exists s, run env = Done 0 s /\
    In (Perf None (gigaFlops_of matrix_size (Fin 0)) (Fin 0)) (trace s) /\
    gigaFlops_of matrix_size (Fin 0) = Inf false /\
    count_compares (trace s) = nIter /\
    Forall (fun e => match e with
                     | Perf _ g m => m = Fin 0 /\ g = Inf false
                     | _ => True end) (trace s).
Proof.
  pose proof (wp_and _ _ _ _ _ _ (run_spec env) (run_done env Hok)) as H.
  unfold wp in H. unfold run.
  destruct (matrixMultiply env (init_state env)) as [r s | s];
    [| destruct H as [_ []]].
  destruct H as [[Hr [_ [g0 [m0 [new [Htr [_ [Hpf Hn]]]]]]]] _]. subst r.
  assert (Hz : Forall (fun e => match e with
                                | Perf _ g m => m = Fin 0 /\ g = Inf false
                                | _ => True end) (Perf None g0 m0 :: new)).
  { eapply Forall_impl; [| exact Hpf].
    intros [t g m | | |] He; try exact I.
    destruct He as [Hg [k Hm]]. subst g m. rewrite Ht.
    split; [reflexivity | exact gigaFlops_zero]. }
  exists s. split; [reflexivity |].
  rewrite Htr.
  destruct (Forall_inv Hz) as [Hm0 Hg0].
  split; [left; rewrite Hm0, Hg0, gigaFlops_zero; reflexivity |].
  split; [exact gigaFlops_zero |].
  split.
  - cbn [count_compares]. rewrite count_compares_app. cbn [count_compares].
    rewrite Hn. reflexivity.
  - apply Forall_cons; [exact (Forall_inv Hz) |].
    apply Forall_app; split; [exact (Forall_inv_tail Hz) |].
    apply Forall_cons; [exact I | apply Forall_nil].
Qed.

Lemma zero_elapsed_time_divides_witness :
  exists s, run env_zero_time = Done 0 s /\
    In (Perf None (gigaFlops_of matrix_size (Fin 0)) (Fin 0)) (trace s) /\
    gigaFlops_of matrix_size (Fin 0) = Inf false /\
    count_compares (trace s) = nIter /\
    Forall (fun e => match e with
                     | Perf _ g m => m = Fin 0 /\ g = Inf false
                     | _ => True end) (trace s).
Proof.
  apply zero_elapsed_time_divides; intro k; reflexivity.
Defined.

(** ** Further properties of the program *)

Lemma randomInit_loop_spec (rand : nat -> Z) (fuel : nat) : forall calls data i p,
  fst (randomInit_loop rand calls data i fuel) p =
    (if (i <=? p) && (p <? i + Z.of_nat fuel)
     then fdiv binary32 (of_int binary32 (rand (calls + Z.to_nat (p - i))%nat))
               (of_int binary32 RAND_MAX)
     else data p) /\
  snd (randomInit_loop rand calls data i fuel) = (calls + fuel)%nat.
Proof.
  induction fuel as [| fuel IH]; intros calls data i p.
  - cbn [randomInit_loop fst snd].
    replace ((i <=? p) && (p <? i + Z.of_nat 0)) with false
      by (symmetry; apply andb_false_iff;
          destruct (Z.leb_spec i p); [right; apply Z.ltb_ge | left; reflexivity]; lia).
    split; [reflexivity | lia].
  - cbn [randomInit_loop]. destruct (IH (S calls) (upd data i
      (fdiv binary32 (of_int binary32 (rand calls)) (of_int binary32 RAND_MAX)))
      (i + 1) p) as [H1 H2].
    split; [| rewrite H2; lia].
    rewrite H1. unfold upd. rewrite Nat2Z.inj_succ.
    destruct (Z.eqb_spec p i) as [-> | Hne].
    + replace ((i + 1 <=? i) && (i <? i + 1 + Z.of_nat fuel)) with false
        by (symmetry; apply andb_false_iff; left; apply Z.leb_gt; lia).
      replace ((i <=? i) && (i <? i + Z.succ (Z.of_nat fuel))) with true
        by (symmetry; apply andb_true_intro; split; [apply Z.leb_le | apply Z.ltb_lt]; lia).
      rewrite Z.sub_diag. cbn [Z.to_nat]. rewrite Nat.add_0_r. reflexivity.
    + assert (E : (i + 1 <=? p) && (p <? i + 1 + Z.of_nat fuel) =
                  (i <=? p) && (p <? i + Z.succ (Z.of_nat fuel))).
      { destruct (Z.leb_spec (i + 1) p); destruct (Z.leb_spec i p);
          destruct (Z.ltb_spec p (i + 1 + Z.of_nat fuel));
          destruct (Z.ltb_spec p (i + Z.succ (Z.of_nat fuel))); cbn [andb];
          solve [reflexivity | lia]. }
      rewrite <- E.
      destruct ((i + 1 <=? p) && (p <? i + 1 + Z.of_nat fuel)) eqn:E2;
        [| reflexivity].
      apply andb_prop in E2 as [E2 _]. apply Z.leb_le in E2.
      replace (Z.to_nat (p - i)) with (S (Z.to_nat (p - (i + 1)))) by lia.
      rewrite Nat.add_succ_r. reflexivity.
Qed.

Lemma randomInit_spec (rand : nat -> Z) calls data size p :
  fst (randomInit rand calls data size) p =
    (if (0 <=? p) && (p <? size)
     then fdiv binary32 (of_int binary32 (rand (calls + Z.to_nat p)%nat))
               (of_int binary32 RAND_MAX)
     else data p) /\
  snd (randomInit rand calls data size) = (calls + Z.to_nat size)%nat.
Proof.
  unfold randomInit. destruct (randomInit_loop_spec rand (Z.to_nat size) calls data 0 p)
    as [H1 H2].
  rewrite H1, H2, Z.sub_0_r. split; [| reflexivity].
  destruct (Z.leb_spec 0 size) as [Hs | Hs].
  - rewrite Z2Nat.id by lia. reflexivity.
  - replace (Z.to_nat size) with O by lia. cbn [Z.of_nat]. rewrite Z.add_0_l.
    replace ((0 <=? p) && (p <? 0)) with false
      by (symmetry; apply andb_false_iff; destruct (Z.leb_spec 0 p);
          [right; apply Z.ltb_ge | left; reflexivity]; lia).
    replace ((0 <=? p) && (p <? size)) with false
      by (symmetry; apply andb_false_iff; destruct (Z.leb_spec 0 p);
          [right; apply Z.ltb_ge | left; reflexivity]; lia).
    reflexivity.
Qed.

(** X1: randomInit(data, size) stores at each [0 <= p < size] the next
    generator output divided (in [float]) by [(float)RAND_MAX], in index
    order, leaves every other position unchanged, and draws exactly
    [size] outputs (none when [size <= 0]). *)
Theorem randomInit_contents (rand : nat -> Z) (calls : nat) (data : Z -> fl)
    (size : Z) :
  (forall p, fst (randomInit rand calls data size) p =
     if (0 <=? p) && (p <? size)
     then fdiv binary32 (of_int binary32 (rand (calls + Z.to_nat p)%nat))
               (of_int binary32 RAND_MAX)
     else data p) /\
  snd (randomInit rand calls data size) = (calls + Z.to_nat size)%nat.
Proof.
  split.
  - intro p. apply (randomInit_spec rand calls data size p).
  - apply (randomInit_spec rand calls data size 0).
Qed.

Lemma to_int32_size_A : to_int32 size_A = 104857600.
Proof. vm_compute. reflexivity. Qed.

Lemma to_int32_size_B : to_int32 size_B = 104857600.
Proof. vm_compute. reflexivity. Qed.

(** X2: the set-up fills [h_A] (10240 x 10240 entries) with the first
    10240^2 outputs of the generator after [srand(2006)] and [h_B] with
    the next 10240^2, each divided by [(float)RAND_MAX]; no other buffer
    and no position past the matrices is written. *)
Theorem init_inputs_contents (env : environment) (s : state) :
  (forall p, mem (init_inputs env s) R_h_A p =
     if (0 <=? p) && (p <? 104857600)
     then fdiv binary32 (of_int binary32 (env_rand env (Z.to_nat p)))
               (of_int binary32 RAND_MAX)
     else mem s R_h_A p) /\
  (forall p, mem (init_inputs env s) R_h_B p =
     if (0 <=? p) && (p <? 104857600)
     then fdiv binary32 (of_int binary32 (env_rand env (Z.to_nat (104857600 + p))))
               (of_int binary32 RAND_MAX)
     else mem s R_h_B p) /\
  (forall r, r <> R_h_A -> r <> R_h_B -> mem (init_inputs env s) r = mem s r).
Proof.
  unfold init_inputs. cbn [store mem set_mem].
  rewrite to_int32_size_A, to_int32_size_B.
  split; [| split].
  - intro p. cbn [set_mem resource_beq].
    exact (proj1 (randomInit_spec _ 0 _ _ p)).
  - intro p. cbn [set_mem resource_beq].
    destruct (randomInit_spec (env_rand env) 0 (mem s R_h_A) 104857600 0)
      as [_ HsA].
    remember (randomInit (env_rand env) 0 (mem s R_h_A) 104857600) as rA eqn:HrA.
    destruct (randomInit_spec (env_rand env) (snd rA) (mem s R_h_B) 104857600 p)
      as [HB _].
    remember (randomInit (env_rand env) (snd rA) (mem s R_h_B) 104857600)
      as rB eqn:HrB.
    rewrite HB, HsA.
    destruct ((0 <=? p) && (p <? 104857600)) eqn:E; [| reflexivity].
    apply andb_prop in E as [E _]. apply Z.leb_le in E.
    rewrite Nat.add_0_l, <- Z2Nat.inj_add by lia. reflexivity.
  - intros r HA HB.
    destruct r; try (exfalso; auto; fail); reflexivity.
Qed.

(** X3: when every flat index fits the [unsigned int] arithmetic
    ([hA*wB] at most 2^32), matrixMulCPU writes only the [hA*wB]
    positions of the output block: every other position of [C] keeps its
    contents. *)
Theorem matrixMulCPU_untouched {F D : Type} (to_double : F -> D)
    (to_float : D -> F) (d0 : D) (dadd dmul : D -> D -> D)
    (C A B : Z -> F) (hA wA wB p : Z) :
  0 <= hA -> 0 <= wB -> hA * wB <= 2 ^ 32 -> (p < 0 \/ hA * wB <= p) ->
  matrixMulCPU to_double to_float d0 dadd dmul C A B hA wA wB p = C p.
Proof.
  intros HhA HwB Hn Hp. unfold matrixMulCPU.
  rewrite cpu_iloop_spec by (rewrite ?Z2Nat.id; lia).
  rewrite Z2Nat.id by lia.
  replace ((0 <=? p) && (p <? hA * wB)) with false; [reflexivity |].
  symmetry. apply andb_false_iff.
  destruct Hp as [Hp | Hp]; [left; apply Z.leb_gt | right; apply Z.ltb_ge]; lia.
Qed.

Lemma matrixMulCPU_untouched_witness :
  matrixMulCPU (F := Z) (D := Z) id id 0 Z.add Z.mul (fun p => 7 * p)
    (fun p => p + 1) (fun p => 2 * p) 3 2 4 12 = 7 * 12.
Proof. apply (matrixMulCPU_untouched (F := Z) (D := Z)); lia. Defined.

(** X4: with every NVML call succeeding as documented, undervolte issues
    nvmlInit and its four calls on device 0, prints nothing and leaves the
    device at a 30000 mW limit, application clocks locked at 3510 MHz
    (memory) and 1885 MHz (graphics), and auto-boost disabled, whatever
    the previous device state. *)
Theorem undervolte_ideal (w : world) :
  snd (undervolte nvml_ideal w) =
  mkWorld (mkGpu 30000 (Some (3510, 1885)) false)
    (w_calls w ++ [NvmlInit; NvmlDeviceGetHandleByIndex 0;
                   NvmlDeviceSetPowerManagementLimit 0 30000;
                   NvmlDeviceSetApplicationsClocks 0 3510 1885;
                   NvmlDeviceSetAutoBoostedClocksEnabled 0 false])
    (w_out w).
Proof.
  destruct w as [[pl ac ab] cs out].
  unfold undervolte, nvml_call_in, nvml_ideal. cbn.
  rewrite <- !app_assoc. reflexivity.
Qed.

(** X5: with every NVML call succeeding as documented, resetvolte prints
    nothing and leaves the device at a 38500 mW limit, application clocks
    reset to their default (no lock) and auto-boost enabled, whatever the
    previous device state: it does not restore the clocks or auto-boost
    setting held before an undervolte. *)
Theorem resetvolte_ideal (w : world) :
  snd (resetvolte nvml_ideal w) =
  mkWorld (mkGpu 38500 None true)
    (w_calls w ++ [NvmlInit; NvmlDeviceGetHandleByIndex 0;
                   NvmlDeviceSetPowerManagementLimit 0 38500;
                   NvmlDeviceResetApplicationsClocks 0;
                   NvmlDeviceSetAutoBoostedClocksEnabled 0 true])
    (w_out w).
Proof.
  destruct w as [[pl ac ab] cs out].
  unfold resetvolte, nvml_call_in, nvml_ideal. cbn.
  rewrite <- !app_assoc. reflexivity.
Qed.

Ltac nvml_steps b :=
  repeat (match goal with
          | |- context [b ?c ?g] =>
              let r := fresh "r" in let g' := fresh "g" in
              destruct (b c g) as [[| r] g']
          end; cbn).

Ltac nvml_steps_known b :=
  repeat (match goal with
          | |- context [b ?c ?g] =>
              let r := fresh "r" in let g' := fresh "g" in let E := fresh "E" in
              destruct (b c g) as [r g'] eqn:E;
              match goal with
              | H : forall g, fst (b c g) = ?v |- _ =>
                  let H' := fresh in
                  pose proof (H g) as H'; rewrite E in H'; cbn [fst] in H'; subst r
              end
          end; cbn).

(** X6: when the last call of resetvolte, the one enabling auto-boost on
    device 0, fails with error [e] after the others succeed, resetvolte
    prints exactly one line, the report "Failed to disable autoboost of
    device 0" with [e], although the failing call was an enable. *)
Theorem resetvolte_enable_failure_message (b : nvml_backend) (w : world) (e : Z)
    (H1 : forall g, fst (b NvmlInit g) = NVML_SUCCESS)
    (H2 : forall g, fst (b (NvmlDeviceGetHandleByIndex 0) g) = NVML_SUCCESS)
    (H3 : forall g, fst (b (NvmlDeviceSetPowerManagementLimit 0 38500) g) = NVML_SUCCESS)
    (H4 : forall g, fst (b (NvmlDeviceResetApplicationsClocks 0) g) = NVML_SUCCESS)
    (H5 : forall g, fst (b (NvmlDeviceSetAutoBoostedClocksEnabled 0 true) g) =
                    NVML_ERROR e) :
  last (w_calls (snd (resetvolte b w))) NvmlInit =
    NvmlDeviceSetAutoBoostedClocksEnabled 0 true /\
  w_out (snd (resetvolte b w)) =
    w_out w ++ [Printf_device_error "Failed to disable autoboost of device %i: %s"
                  0 (NVML_ERROR e)].
Proof.
  unfold resetvolte, nvml_call_in. cbn.
  nvml_steps_known b.
  split; [apply last_last | reflexivity].
Qed.

Lemma resetvolte_enable_failure_message_witness :
  let b : nvml_backend := fun c g =>
    match c with
    | NvmlDeviceSetAutoBoostedClocksEnabled _ true => (NVML_ERROR 3, g)
    | _ => nvml_ideal c g
    end in
  last (w_calls (snd (resetvolte b (mkWorld (mkGpu 30000 None false) [] []))))
    NvmlInit = NvmlDeviceSetAutoBoostedClocksEnabled 0 true /\
  w_out (snd (resetvolte b (mkWorld (mkGpu 30000 None false) [] []))) =
    [] ++ [Printf_device_error "Failed to disable autoboost of device %i: %s"
             0 (NVML_ERROR 3)].
Proof.
  intro b. apply resetvolte_enable_failure_message; intro g; reflexivity.
Defined.

(** X7: whatever each NVML call returns, undervolte and resetvolte only
    append calls to the log, and every call they issue other than
    nvmlInit addresses device index 0. *)
Theorem nvml_transitions_device0 (b : nvml_backend) (w : world) :
  (exists new, w_calls (snd (undervolte b w)) = w_calls w ++ new /\
     Forall (fun c => call_device c = None \/ call_device c = Some 0) new) /\
  (exists new, w_calls (snd (resetvolte b w)) = w_calls w ++ new /\
     Forall (fun c => call_device c = None \/ call_device c = Some 0) new).
Proof.
  split; [unfold undervolte | unfold resetvolte]; unfold nvml_call_in; cbn;
    nvml_steps b;
    eexists; (split; [rewrite <- ?app_assoc; reflexivity |]);
    repeat (apply Forall_cons; [cbn; auto |]); apply Forall_nil.
Qed.

Definition all_ok_below (env : environment) (n : nat) : Prop :=
  forall k, (k < n)%nat -> env_ok env k = true.

Lemma below_0 env : all_ok_below env 0.
Proof. intros k Hk. lia. Qed.

Lemma below_step env n :
  all_ok_below env n -> env_ok env n = true -> all_ok_below env (S n).
Proof.
  intros H Hn k Hk. destruct (Nat.eq_dec k n) as [-> | Hne]; [exact Hn |].
  apply H. lia.
Qed.

Lemma Z_to_nat_nIter : Z.to_nat nIter = 100%nat.
Proof. reflexivity. Qed.

Ltac st_red_in H :=
  cbn [incr_calls store log acquire release init_inputs ncalls nsgemm ntime live
       mem trace set_mem resource_beq fst snd] in H.

Ltac ok_below Hinv :=
  repeat (apply below_step; [| assumption]); first [exact Hinv | apply below_0].

Section CallCount.

Variable env : environment.

Lemma trials_calls (fuel : nat) : forall j fc tp s,
  all_ok_below env (ncalls s) ->
  wp (trials env fuel j fc tp)
     (fun _ s' => ncalls s' = (ncalls s + 6 * fuel)%nat /\
                  all_ok_below env (ncalls s'))
     (fun s' => exists k, ncalls s' = S k /\ (k < ncalls s + 6 * fuel)%nat /\
                          env_ok env k = false /\ all_ok_below env k) s.
Proof.
  induction fuel as [| fuel IH]; intros j fc tp s Hinv.
  - apply wp_ret. split; [lia | exact Hinv].
  - rewrite trials_S. wp_run.
    all: try (match goal with |- exists k, _ => idtac end; st_red;
              eexists; split; [reflexivity |];
              split; [lia | split; [assumption | ok_below Hinv]]).
    destruct (sdkCompareL2fe_result _ _ _ _); wp_run;
      (eapply wp_conseq;
       [ apply IH; ok_below Hinv
       | intros a s' [Hn Hb]; st_red_in Hn; split; [lia | exact Hb]
       | intros s' [k [Hk [Hlt [Hf Hb]]]]; st_red_in Hlt;
         exists k; split; [exact Hk | split; [lia | split; assumption]] ]).
Qed.

Lemma run_calls :
  wp (matrixMultiply env)
     (fun _ s => ncalls s = total_checked_calls /\ all_ok_below env (ncalls s))
     (fun s => exists k, ncalls s = S k /\ (k < total_checked_calls)%nat /\
                         env_ok env k = false /\ all_ok_below env k)
     (init_state env).
Proof.
  unfold matrixMultiply, matrixMultiply_setup, matrixMultiply_baseline,
    matrixMultiply_report, matrixMultiply_cleanup, init_state, total_checked_calls.
  rewrite Z_to_nat_nIter.
  wp_run.
  all: try (match goal with |- exists k, _ => idtac end; st_red;
            eexists; split; [reflexivity |];
            split; [lia | split; [assumption | ok_below below_0]]).
  eapply wp_conseq;
    [ apply trials_calls; ok_below below_0
    | intros a s' [Hn Hb] | intros s' [k [Hk [Hlt [Hf Hb]]]] ].
  - st_red_in Hn. wp_run.
    all: try (match goal with |- exists k, _ => idtac end; st_red;
              eexists; split; [reflexivity |];
              split; [rewrite Hn; lia | split; [assumption | ok_below Hb]]).
    st_red; split; [rewrite Hn; lia | ok_below Hb].
  - st_red_in Hlt. exists k. split; [exact Hk | split; [lia | split; assumption]].
Qed.

End CallCount.



Section TraceClosedForm.

Variable env : environment.

Lemma trials_trace (fuel : nat) : forall t fc tp s,
  mem s R_h_C2 = first_sgemm_result env ->
  mem s R_d_A = initial_A env -> mem s R_d_B = initial_B env ->
  nsgemm s = S t -> ntime s = S t ->
  wp (trials env fuel (Z.of_nat t) fc tp)
     (fun _ s' => trace s' = trace s ++ flat_map (trial_events env) (seq t fuel))
     (fun _ => True) s.
Proof.
  induction fuel as [| fuel IH]; intros t fc tp s HR HA HB Hg Ht.
  - apply wp_ret. cbn [seq flat_map]. rewrite app_nil_r. reflexivity.
  - rewrite trials_S. cbn [seq flat_map]. unfold trial_events at 1. cbv zeta.
    wp_run.
    all: try (match goal with |- True => exact I end).
    rewrite HR, HA, HB, Hg, Ht.
    destruct (sdkCompareL2fe_result _ _ _ _); wp_run;
      (replace (Z.of_nat t + 1) with (Z.of_nat (S t)) by lia;
       eapply wp_conseq;
       [ apply IH; st_red;
         match goal with
         | |- _ = first_sgemm_result env => exact HR
         | |- _ = initial_A env => exact HA
         | |- _ = initial_B env => exact HB
         | |- (_ = _)%nat => reflexivity
         end
       | intros a s' Hs'; rewrite Hs'; st_red; rewrite <- ?app_assoc; cbn [app]; reflexivity
       | intros; exact I ]).
Qed.

Lemma run_trace :
  wp (matrixMultiply env)
     (fun _ s => exists x, trace s =
        Perf None (gigaFlops_of matrix_size (env_time env 0)) (env_time env 0) ::
        flat_map (trial_events env) (seq 0 (Z.to_nat nIter)) ++ [x])
     (fun _ => True) (init_state env).
Proof.
  unfold matrixMultiply, matrixMultiply_setup, matrixMultiply_baseline,
    matrixMultiply_report, matrixMultiply_cleanup, init_state.
  wp_run.
  all: try (match goal with |- True => exact I end).
  eapply wp_conseq;
    [ apply (trials_trace (Z.to_nat nIter) 0); st_red;
      unfold first_sgemm_result, initial_A, initial_B; cbv zeta; reflexivity
    | intros a s' Hs' | intros; exact I ].
  wp_run.
  all: try (match goal with |- True => exact I end).
  eexists. st_red. rewrite Hs'. st_red. rewrite <- ?app_assoc. cbn [app]. reflexivity.
Qed.

End TraceClosedForm.

(** X10: the output of a completed run, in closed form: the baseline
    line with the time of the first measured interval, then for each
    trial [t] its throughput line with the [t+1]-th measured time, the
    diff listing exactly when sdkCompareL2fe reports failure for trial
    [t]'s result against the baseline [C2] (relative tolerance 1e-10; an
    all-zero reference always fails), the PASS/FAIL line of that
    comparison, and finally the report whose failure count is the number
    of FAIL lines and whose average is the [float] accumulator
    [total_perf] (each throughput added with rounding) divided by
    [nIter]. *)
Theorem run_output_closed_form (env : environment) :
  match run env with
  | Done _ s => trace s = expected_trace env
  | Exit _ => True
  end.
Proof.
  pose proof (wp_and _ _ _ _ _ _ (run_spec env) (run_trace env)) as H.
  unfold wp in H. unfold run.
  destruct (matrixMultiply env (init_state env)) as [r s | s]; [| exact I].
  destruct H as [[_ [_ [g0 [m0 [new [Ht1 _]]]]]] [x Ht2]].
  rewrite Ht2. rewrite Ht1 in Ht2.
  pose proof (f_equal (@tl event) Ht2) as Htl. cbn [tl] in Htl.
  apply app_inj_tail in Htl. destruct Htl as [Hnew Hx].
  rewrite <- Hx. subst new.
  unfold expected_trace. cbv zeta. reflexivity.
Qed.

Lemma int32_wrap_id (z : Z) : - 2 ^ 31 <= z < 2 ^ 31 -> int32_wrap z = z.
Proof.
  intro H. unfold int32_wrap. rewrite Z.mod_small by lia. lia.
Qed.

Section PrintDiffProofs.

Variables (data1 data2 : Z -> fl) (width iListLength : Z) (fListTol : fl).

Fixpoint colsZ (i : Z) (fuel : nat) : list Z :=
  match fuel with O => [] | S f => i :: colsZ (i + 1) f end.

Lemma map_of_nat_seq (n a : nat) :
  map Z.of_nat (seq a n) = colsZ (Z.of_nat a) n.
Proof.
  revert a. induction n as [| n IH]; intro a; [reflexivity |].
  cbn [seq map colsZ]. rewrite IH. f_equal. f_equal. lia.
Qed.

Lemma zrange_colsZ (n : Z) : zrange n = colsZ 0 (Z.to_nat n).
Proof. unfold zrange. apply (map_of_nat_seq _ 0). Qed.

Lemma filter_loc_map (l : list (Z * Z)) :
  filter is_loc (map (loc_line data1 data2 width) l) = map (loc_line data1 data2 width) l.
Proof. induction l as [| [i j] l IH]; cbn; [reflexivity | now rewrite IH]. Qed.

Lemma filter_row_map (l : list (Z * Z)) :
  filter is_row (map (loc_line data1 data2 width) l) = [].
Proof. induction l as [| [i j] l IH]; cbn; [reflexivity | exact IH]. Qed.

Lemma Forall_map_loc (l : list (Z * Z)) :
  Forall (fun d => is_loc d || is_row d = true) (map (loc_line data1 data2 width) l).
Proof.
  induction l as [| [i j] l IH]; cbn; constructor; [reflexivity | exact IH].
Qed.

Lemma printDiff_cols_spec (j : Z) (fuel : nat) : forall i error_count out,
  (forall i', i <= i' < i + Z.of_nat fuel ->
     - 2 ^ 31 <= j * width < 2 ^ 31 /\ - 2 ^ 31 <= j * width + i' < 2 ^ 31) ->
  0 <= error_count -> error_count + Z.of_nat fuel < 2 ^ 31 ->
  let E := map (fun i => (i, j))
             (filter (fun i => exceeds data1 data2 width fListTol i j) (colsZ i fuel)) in
  printDiff_cols data1 data2 width j iListLength fListTol i fuel error_count out =
  (error_count + Z.of_nat (List.length E),
   out ++ map (loc_line data1 data2 width)
              (firstn (Z.to_nat (iListLength - error_count)) E)).
Proof.
  induction fuel as [| fuel IH]; intros i ec out Hk Hec0 Hec1; cbv zeta.
  - cbn [printDiff_cols colsZ filter map List.length]. rewrite firstn_nil. cbn [map].
    rewrite app_nil_r. f_equal. lia.
  - cbn [printDiff_cols colsZ filter].
    destruct (Hk i) as [Hk1 Hk2]; [lia |].
    rewrite (int32_wrap_id (j * width)) by exact Hk1.
    rewrite (int32_wrap_id (j * width + i)) by exact Hk2.
    change (flt fListTol
              (fabs (fsub binary32 (data1 (j * width + i)) (data2 (j * width + i)))))
      with (exceeds data1 data2 width fListTol i j).
    destruct (exceeds data1 data2 width fListTol i j);
      [rewrite int32_wrap_id by lia |];
      (rewrite IH; [| intros i' Hi'; apply Hk; lia | lia | lia]);
      cbn [map List.length].
    + destruct (ec <? iListLength) eqn:Hl.
      * apply Z.ltb_lt in Hl.
        replace (Z.to_nat (iListLength - ec))
          with (S (Z.to_nat (iListLength - (ec + 1)))) by lia.
        cbn [firstn map]. rewrite <- app_assoc. f_equal. lia.
      * apply Z.ltb_ge in Hl.
        replace (Z.to_nat (iListLength - ec)) with O by lia.
        replace (Z.to_nat (iListLength - (ec + 1))) with O by lia.
        cbn [firstn map]. f_equal. lia.
    + reflexivity.
Qed.

Lemma diff_positions_succ (j : Z) :
  0 <= j ->
  diff_positions data1 data2 width (j + 1) fListTol =
  diff_positions data1 data2 width j fListTol ++ row_positions data1 data2 width fListTol j.
Proof.
  intro Hj. unfold diff_positions, zrange.
  replace (Z.to_nat (j + 1)) with (Z.to_nat j + 1)%nat by lia.
  rewrite seq_app, map_app, flat_map_app. cbn [seq map flat_map].
  rewrite app_nil_r. do 2 f_equal. lia.
Qed.

Lemma length_row_positions (j : Z) :
  Z.of_nat (List.length (row_positions data1 data2 width fListTol j)) <= Z.max 0 width.
Proof.
  unfold row_positions, zrange. rewrite length_map.
  pose proof (filter_length_le (fun i => exceeds data1 data2 width fListTol i j)
                (map Z.of_nat (seq 0 (Z.to_nat width)))) as H.
  rewrite length_map, length_seq in H. lia.
Qed.

Lemma length_diff_positions : forall j, 0 <= j ->
  Z.of_nat (List.length (diff_positions data1 data2 width j fListTol)) <= j * Z.max 0 width.
Proof.
  apply natlike_ind; [reflexivity |].
  intros x Hx IH. unfold Z.succ. rewrite diff_positions_succ by exact Hx.
  rewrite length_app, Nat2Z.inj_add.
  pose proof (length_row_positions x). lia.
Qed.

Lemma printDiff_rows_spec (fuel : nat) : forall j error_count out,
  0 <= j ->
  error_count = Z.of_nat (List.length (diff_positions data1 data2 width j fListTol)) ->
  (j + Z.of_nat fuel) * Z.max 0 width < 2 ^ 31 ->
  let P := flat_map (row_positions data1 data2 width fListTol) (colsZ j fuel) in
  exists R,
    printDiff_rows data1 data2 width iListLength fListTol j fuel error_count out =
      (error_count + Z.of_nat (List.length P), out ++ R) /\
    filter is_loc R = map (loc_line data1 data2 width)
                          (firstn (Z.to_nat (iListLength - error_count)) P) /\
    filter is_row R =
      map DiffRow (filter (fun j' => Z.of_nat (List.length
                             (diff_positions data1 data2 width j' fListTol)) <? iListLength)
                          (colsZ j fuel)) /\
    Forall (fun d => is_loc d || is_row d = true) R.
Proof.
  induction fuel as [| fuel IH]; intros j ec out Hj Hec Hb; cbv zeta.
  - exists []. cbn. rewrite app_nil_r, firstn_nil.
    repeat split; [f_equal; lia | constructor].
  - cbn [printDiff_rows colsZ flat_map].
    pose proof (length_diff_positions j Hj) as Hlen. rewrite <- Hec in Hlen.
    assert (HM : 0 <= Z.max 0 width) by lia.
    assert (HW : Z.of_nat (Z.to_nat width) = Z.max 0 width) by lia.
    rewrite Nat2Z.inj_succ in Hb.
    assert (Hb1 : (j + 1) * Z.max 0 width < 2 ^ 31) by nia.
    rewrite printDiff_cols_spec;
      [| intros i' Hi'; rewrite Z.max_r in Hb1 by lia; split; nia | lia | nia].
    rewrite <- zrange_colsZ.
    fold (row_positions data1 data2 width fListTol j).
    set (rp := row_positions data1 data2 width fListTol j).
    set (out1 := if ec <? iListLength then out ++ [DiffRow j] else out).
    destruct (IH (j + 1) (ec + Z.of_nat (List.length rp))
                 (out1 ++ map (loc_line data1 data2 width)
                              (firstn (Z.to_nat (iListLength - ec)) rp)))
      as [R [HR [Hloc [Hrow Hall]]]];
      [lia | unfold rp; rewrite diff_positions_succ by exact Hj; rewrite length_app; lia
      | nia |].
    set (rest := flat_map (row_positions data1 data2 width fListTol) (colsZ (j + 1) fuel))
      in *.
    exists ((if ec <? iListLength then [DiffRow j] else []) ++
            map (loc_line data1 data2 width) (firstn (Z.to_nat (iListLength - ec)) rp) ++ R).
    split; [| split; [| split]].
    + rewrite HR. subst out1. rewrite length_app.
      f_equal; [lia |].
      destruct (ec <? iListLength); cbn [app]; rewrite <- !app_assoc; reflexivity.
    + rewrite !filter_app, Hloc, filter_loc_map, firstn_app, map_app.
      replace (Z.to_nat (iListLength - (ec + Z.of_nat (List.length rp))))
        with (Z.to_nat (iListLength - ec) - List.length rp)%nat by lia.
      destruct (ec <? iListLength); reflexivity.
    + rewrite !filter_app, Hrow, filter_row_map. cbn [filter].
      rewrite <- Hec. destruct (ec <? iListLength); reflexivity.
    + rewrite !Forall_app. split; [| split; [apply Forall_map_loc | exact Hall]].
      destruct (ec <? iListLength); repeat constructor.
Qed.

End PrintDiffProofs.

Lemma printDiff_spec (data1 data2 : Z -> fl) (width height iListLength : Z)
    (fListTol : fl) :
  width * height < 2 ^ 31 ->
  exists R,
    printDiff data1 data2 width height iListLength fListTol =
      DiffHeader iListLength fListTol :: R ++
      [DiffTotal (Z.of_nat (List.length (diff_positions data1 data2 width height fListTol)))] /\
    filter is_loc R = map (loc_line data1 data2 width)
      (firstn (Z.to_nat iListLength) (diff_positions data1 data2 width height fListTol)) /\
    filter is_row R =
      map DiffRow (filter (fun j => Z.of_nat (List.length
                             (diff_positions data1 data2 width j fListTol)) <? iListLength)
                          (zrange height)) /\
    Forall (fun d => is_loc d || is_row d = true) R.
Proof.
  intro Hb.
  destruct (printDiff_rows_spec data1 data2 width iListLength fListTol
              (Z.to_nat height) 0 0 [DiffHeader iListLength fListTol])
    as [R [HR [Hloc [Hrow Hall]]]]; [lia | reflexivity | |].
  { destruct (Z.le_gt_cases height 0), (Z.le_gt_cases width 0).
    - rewrite Z.max_l by lia. lia.
    - replace (Z.to_nat height) with O by lia. lia.
    - rewrite Z.max_l by lia. lia.
    - rewrite Z.max_r by lia. rewrite Z2Nat.id by lia. lia. }
  exists R. unfold printDiff. rewrite HR.
  assert (HD : diff_positions data1 data2 width height fListTol =
               flat_map (row_positions data1 data2 width fListTol)
                        (colsZ 0 (Z.to_nat height)))
    by (unfold diff_positions; rewrite zrange_colsZ; reflexivity).
  rewrite HD.
  split; [reflexivity |]. split; [| split; [| exact Hall]].
  - rewrite Hloc. replace (iListLength - 0) with iListLength by lia. reflexivity.
  - rewrite Hrow, zrange_colsZ. reflexivity.
Qed.

Lemma In_diff_positions (data1 data2 : Z -> fl) (width height : Z) (fListTol : fl)
    (i j : Z) :
  In (i, j) (diff_positions data1 data2 width height fListTol) ->
  0 <= i < width /\ 0 <= j < height /\
  exceeds data1 data2 width fListTol i j = true.
Proof.
  unfold diff_positions, row_positions, zrange.
  rewrite in_flat_map. intros [j' [Hj' Hin]].
  apply in_map_iff in Hin. destruct Hin as [i' [Heq Hin]].
  injection Heq as <- <-. apply filter_In in Hin. destruct Hin as [Hi Hx].
  apply in_map_iff in Hi. destruct Hi as [a [<- Ha]].
  apply in_map_iff in Hj'. destruct Hj' as [b [<- Hb]].
  apply in_seq in Ha. apply in_seq in Hb. split; [lia | split; [lia | exact Hx]].
Qed.

Lemma flt_NaN_r (x : fl) : flt x NaN = false.
Proof. destruct x; reflexivity. Qed.

Lemma exceeds_not_NaN (data1 data2 : Z -> fl) (width : Z) (fListTol : fl) (i j : Z) :
  exceeds data1 data2 width fListTol i j = true ->
  data1 (j * width + i) <> NaN /\ data2 (j * width + i) <> NaN.
Proof.
  unfold exceeds, fsub.
  destruct (data1 (j * width + i)), (data2 (j * width + i));
    cbn [fneg fadd fabs]; rewrite ?flt_NaN_r; try discriminate; intros _;
    split; discriminate.
Qed.

(** X11: printDiff prints the header, then only row and location lines,
    then the total; the total counts every position [(i, j)] with
    [0 <= i < width] and [0 <= j < height] where [fabs(data1[k] -
    data2[k]) > fListTol], whatever [iListLength] is.  (Here and in X12-X15,
    [width * height < 2^31]: no [int] overflows.) *)
Theorem printDiff_total (data1 data2 : Z -> fl) (width height iListLength : Z)
    (fListTol : fl)
    (Hb : width * height < 2 ^ 31) :
  exists R,
    printDiff data1 data2 width height iListLength fListTol =
      DiffHeader iListLength fListTol :: R ++
      [DiffTotal (Z.of_nat (List.length (diff_positions data1 data2 width height fListTol)))] /\
    Forall (fun d => is_loc d || is_row d = true) R.
Proof.
  destruct (printDiff_spec data1 data2 width height iListLength fListTol Hb)
    as [R [H1 [_ [_ H4]]]].
  exists R. split; assumption.
Qed.

(** X12: the location lines printDiff prints are those of the first
    [iListLength] positions exceeding the tolerance, in row-major order
    (none when [iListLength <= 0]), each with both values and their
    absolute difference ([width * height < 2^31]). *)
Theorem printDiff_listed_locations (data1 data2 : Z -> fl)
    (width height iListLength : Z) (fListTol : fl)
    (Hb : width * height < 2 ^ 31) :
  filter is_loc (printDiff data1 data2 width height iListLength fListTol) =
  map (loc_line data1 data2 width)
    (firstn (Z.to_nat iListLength) (diff_positions data1 data2 width height fListTol)).
Proof.
  destruct (printDiff_spec data1 data2 width height iListLength fListTol Hb)
    as [R [H1 [H2 _]]].
  rewrite H1. cbn [filter is_loc]. rewrite filter_app, H2. cbn. apply app_nil_r.
Qed.

(** X13: printDiff prints the header of row [j] (for [0 <= j < height],
    in order) exactly when fewer than [iListLength] positions of the rows
    before [j] exceed the tolerance ([width * height < 2^31]). *)
Theorem printDiff_row_headers (data1 data2 : Z -> fl)
    (width height iListLength : Z) (fListTol : fl)
    (Hb : width * height < 2 ^ 31) :
  filter is_row (printDiff data1 data2 width height iListLength fListTol) =
  map DiffRow (filter (fun j => Z.of_nat (List.length
                         (diff_positions data1 data2 width j fListTol)) <? iListLength)
                      (zrange height)).
Proof.
  destruct (printDiff_spec data1 data2 width height iListLength fListTol Hb)
    as [R [H1 [_ [H3 _]]]].
  rewrite H1. cbn [filter is_row]. rewrite filter_app, H3. cbn. apply app_nil_r.
Qed.

(** X14: every location line printDiff prints is inside the matrix, shows
    the two values stored at [k = j * width + i] and their absolute
    difference, that difference exceeds the tolerance, and neither value
    is NaN: a NaN is never reported ([width * height < 2^31]). *)
Theorem printDiff_location_sound (data1 data2 : Z -> fl)
    (width height iListLength : Z) (fListTol : fl) (i j : Z) (a b d : fl)
    (Hb : width * height < 2 ^ 31) :
  In (DiffLoc i j a b d) (printDiff data1 data2 width height iListLength fListTol) ->
  0 <= i < width /\ 0 <= j < height /\
  a = data1 (j * width + i) /\ b = data2 (j * width + i) /\
  d = fabs (fsub binary32 a b) /\ flt fListTol d = true /\ a <> NaN /\ b <> NaN.
Proof.
  intro H.
  destruct (printDiff_spec data1 data2 width height iListLength fListTol Hb)
    as [R [H1 [H2 _]]].
  rewrite H1 in H. destruct H as [H | H]; [discriminate H |].
  apply in_app_or in H. destruct H as [H | [H | []]]; [| discriminate H].
  assert (Hl : In (DiffLoc i j a b d) (filter is_loc R))
    by (apply filter_In; split; [exact H | reflexivity]).
  rewrite H2 in Hl.
  apply in_map_iff in Hl. destruct Hl as [[i' j'] [Heq Hin]].
  assert (Hin' : In (i', j') (diff_positions data1 data2 width height fListTol)).
  { rewrite <- (firstn_skipn (Z.to_nat iListLength)
                  (diff_positions data1 data2 width height fListTol)).
    apply in_or_app. left. exact Hin. }
  cbn [loc_line] in Heq. injection Heq as <- <- <- <- <-.
  destruct (In_diff_positions _ _ _ _ _ _ _ Hin') as [Hi [Hj Hx]].
  pose proof (exceeds_not_NaN _ _ _ _ _ _ Hx) as [Ha Hn].
  unfold exceeds in Hx. repeat split; try lia; try reflexivity; assumption.
Qed.

(** X15: with a NaN tolerance the test [fDiff > fListTol] never holds:
    printDiff lists no location, prints every row header when
    [iListLength > 0] and none otherwise, and reports 0 errors
    ([width * height < 2^31]). *)
Theorem printDiff_nan_tolerance (data1 data2 : Z -> fl)
    (width height iListLength : Z)
    (Hb : width * height < 2 ^ 31) :
  printDiff data1 data2 width height iListLength NaN =
  DiffHeader iListLength NaN ::
  (if 0 <? iListLength then map DiffRow (zrange height) else []) ++ [DiffTotal 0].
Proof.
  unfold printDiff.
  assert (Hc : forall j i fuel ec out,
             printDiff_cols data1 data2 width j iListLength NaN i fuel ec out = (ec, out)).
  { intros j i fuel. revert i. induction fuel as [| fuel IH]; intros i ec out;
      [reflexivity | cbn [printDiff_cols flt]; apply IH]. }
  assert (Hr : forall j fuel out,
             printDiff_rows data1 data2 width iListLength NaN j fuel 0 out =
             (0, out ++ (if 0 <? iListLength then map DiffRow (colsZ j fuel) else []))).
  { intros j fuel. revert j. induction fuel as [| fuel IH]; intros j out.
    - cbn. destruct (0 <? iListLength); rewrite app_nil_r; reflexivity.
    - cbn [printDiff_rows colsZ]. rewrite Hc, IH.
      destruct (0 <? iListLength); cbn [map]; rewrite ?app_nil_r, <- ?app_assoc;
        reflexivity. }
  rewrite Hr, zrange_colsZ. reflexivity.
Qed.

Lemma printDiff_total_witness :
  2 * 2 < 2 ^ 31 /\
  exists R,
    printDiff (fun _ => Fin 1) (fun _ => Fin 0) 2 2 3 (Fin 0) =
      DiffHeader 3 (Fin 0) :: R ++
      [DiffTotal (Z.of_nat (List.length
         (diff_positions (fun _ => Fin 1) (fun _ => Fin 0) 2 2 (Fin 0))))] /\
    Forall (fun d => is_loc d || is_row d = true) R.
Proof. split; [lia | apply printDiff_total; lia]. Defined.

Lemma printDiff_listed_locations_witness :
  2 * 2 < 2 ^ 31 /\
  filter is_loc (printDiff (fun _ => Fin 1) (fun _ => Fin 0) 2 2 3 (Fin 0)) =
  map (loc_line (fun _ => Fin 1) (fun _ => Fin 0) 2)
    (firstn (Z.to_nat 3) (diff_positions (fun _ => Fin 1) (fun _ => Fin 0) 2 2 (Fin 0))).
Proof. split; [lia | apply printDiff_listed_locations; lia]. Defined.

Lemma printDiff_row_headers_witness :
  2 * 2 < 2 ^ 31 /\
  filter is_row (printDiff (fun _ => Fin 1) (fun _ => Fin 0) 2 2 3 (Fin 0)) =
  map DiffRow (filter (fun j => Z.of_nat (List.length
                 (diff_positions (fun _ => Fin 1) (fun _ => Fin 0) 2 j (Fin 0))) <? 3)
              (zrange 2)).
Proof. split; [lia | apply printDiff_row_headers; lia]. Defined.

Lemma printDiff_nan_tolerance_witness :
  2 * 2 < 2 ^ 31 /\
  printDiff (fun _ => Fin 1) (fun _ => Fin 0) 2 2 3 NaN =
  DiffHeader 3 NaN :: (if 0 <? 3 then map DiffRow (zrange 2) else []) ++ [DiffTotal 0].
Proof. split; [lia | apply printDiff_nan_tolerance; lia]. Defined.

Lemma printDiff_location_sound_witness :
  1 * 1 < 2 ^ 31 /\
  In (DiffLoc 0 0 (Fin 1) (Fin 0) (fabs (fsub binary32 (Fin 1) (Fin 0))))
     (printDiff (fun _ => Fin 1) (fun _ => Fin 0) 1 1 10 (Fin 0)) /\
  (0 <= 0 < 1 /\ 0 <= 0 < 1 /\
   Fin 1 = Fin 1 /\ Fin 0 = Fin 0 /\
   fabs (fsub binary32 (Fin 1) (Fin 0)) = fabs (fsub binary32 (Fin 1) (Fin 0)) /\
   flt (Fin 0) (fabs (fsub binary32 (Fin 1) (Fin 0))) = true /\
   Fin 1 <> NaN /\ Fin 0 <> NaN).
Proof.
  assert (H : In (DiffLoc 0 0 (Fin 1) (Fin 0) (fabs (fsub binary32 (Fin 1) (Fin 0))))
                 (printDiff (fun _ => Fin 1) (fun _ => Fin 0) 1 1 10 (Fin 0)))
    by (vm_compute; repeat (first [left; reflexivity | right])).
  assert (Hb : 1 * 1 < 2 ^ 31) by lia.
  split; [exact Hb | split; [exact H |]].
  exact (printDiff_location_sound (fun _ => Fin 1) (fun _ => Fin 0) 1 1 10 (Fin 0)
           0 0 (Fin 1) (Fin 0) (fabs (fsub binary32 (Fin 1) (Fin 0))) Hb H).
Defined.
